(** * Astra-Support native mocks: virtual clock and simulated serial stream

    A shallow embedding of [src/Arduino.cpp]: the process-wide clock
    ([millis], [micros], [setMillis], [resetMillis]) and the [Stream] class
    with its output log, its input buffer and its optional SITL socket.

    Conventions of the embedding.
    - A member function takes the object state as its last argument and
      returns the new state, paired with the returned value when there is
      one.
    - The [uint64_t] arithmetic of the clock is written with its reduction
      modulo [2^64]. The counters of [Stream] ([cursor], [inputCursor],
      [inputLength]) and the [size_t] loop indices are integers of [Z]:
      they are declared in [Arduino.h], outside the files covered here, and
      the widths of [int] and [size_t] depend on the target.
    - A [char] array is a [list byte]; [sizeof] of the array is the length
      of the list, and every operation keeps that length. The sizes of
      [fakeBuffer] and [inputBuffer] are therefore arbitrary.
    - The system clock and the socket peer are the environment: a clock
      reading is an argument of [millis] and [micros], and the socket is an
      interface ([SITL.Socket]) that any implementation can fill. *)

From Stdlib Require Import ZArith Lia Strings.Byte.
From stdpp Require Import base tactics option list numbers gmap.

Local Open Scope Z_scope.

(** ** The virtual clock *)

Module Clock.

(** Reduction of an integer to the range of [uint64_t]. *)
Definition u64 (z : Z) : Z := z mod 2 ^ 64.

(** The four globals of [Arduino.cpp]: [start] and [startMicros] are
    [const] and initialised once, from the system clock, when the process
    starts. *)
Record state : Type := mk {
  start : Z;
  startMicros : Z;
  fakeMillis : Z;
  useFakeMillis : bool;
}.

(** Static initialisation, given the two readings of the system clock
    (milliseconds and microseconds since the epoch). *)
Definition init (epoch_ms epoch_us : Z) : state :=
  {| start := u64 epoch_ms; startMicros := u64 epoch_us;
     fakeMillis := 0; useFakeMillis := false |}.

(** [millis()]; [epoch_ms] is what the system clock reads, in
    milliseconds since the epoch, at the time of the call. *)
Definition millis (epoch_ms : Z) (c : state) : Z :=
  if useFakeMillis c then fakeMillis c
  else u64 (epoch_ms - start c).

(** [micros()]; [epoch_us] is the system clock in microseconds. *)
Definition micros (epoch_us : Z) (c : state) : Z :=
  if useFakeMillis c then u64 (fakeMillis c * 1000)
  else u64 (epoch_us - startMicros c).

(** [setMillis(ms)]: the argument is converted to [uint64_t] by the call. *)
Definition setMillis (ms : Z) (c : state) : state :=
  {| start := start c; startMicros := startMicros c;
     fakeMillis := u64 ms; useFakeMillis := true |}.

Definition resetMillis (c : state) : state :=
  {| start := start c; startMicros := startMicros c;
     fakeMillis := 0; useFakeMillis := false |}.

(** A call on the clock, with the system-clock reading it observes. *)
Inductive call : Type :=
| CallMillis (epoch_ms : Z)
| CallMicros (epoch_us : Z)
| CallSetMillis (ms : Z)
| CallResetMillis.

(** Reads are the calls that return a time. *)
Definition is_read (k : call) : bool :=
  match k with
  | CallMillis _ | CallMicros _ => true
  | CallSetMillis _ | CallResetMillis => false
  end.

(** One call: the value it returns (if any) and the next state. *)
Definition step (k : call) (c : state) : option Z * state :=
  match k with
  | CallMillis t => (Some (millis t c), c)
  | CallMicros t => (Some (micros t c), c)
  | CallSetMillis ms => (None, setMillis ms c)
  | CallResetMillis => (None, resetMillis c)
  end.

(** A sequence of calls: the returned values, in order, and the last state. *)
Fixpoint run (ks : list call) (c : state) : list (option Z) * state :=
  match ks with
  | [] => ([], c)
  | k :: ks' =>
      let '(r, c1) := step k c in
      let '(rs, c2) := run ks' c1 in
      (r :: rs, c2)
  end.

(** What a read is expected to return while the override is [ms]. *)
Definition frozen_answer (ms : Z) (k : call) : option Z :=
  match k with
  | CallMillis _ => Some ms
  | CallMicros _ => Some (u64 (ms * 1000))
  | CallSetMillis _ | CallResetMillis => None
  end.

End Clock.

(** ** Bytes, arrays and C strings *)

(** [(uint8_t)c] widened to [int]: a value in [0, 255]. *)
Definition byte_to_Z (b : byte) : Z := Z.of_N (Byte.to_N b).

(** [(char)c] for an [int] [c]: its low eight bits. *)
Definition Z_to_byte (z : Z) : byte :=
  default x00 (Byte.of_N (Z.to_N (z mod 256))).

(** [sizeof(a)] for a [char] array [a]. *)
Definition sizeof (a : list byte) : Z := Z.of_nat (length a).

(** [a[i]] read. An index outside the array is undefined behaviour in the
    source; the model reads a zero there. *)
Definition array_get (a : list byte) (i : Z) : byte :=
  if decide (0 <= i) then default x00 (a !! Z.to_nat i) else x00.

(** [a[i] = b]. Outside the array the source has undefined behaviour; the
    model drops the store, so that [sizeof] never changes. *)
Definition array_set (a : list byte) (i : Z) (b : byte) : list byte :=
  if decide (0 <= i) then <[Z.to_nat i := b]> a else a.

(** [memcpy(dst + off, src, n)]; the part that would fall outside [dst] is
    dropped, as for [array_set]. *)
Definition memcpy (dst : list byte) (off : Z) (src : list byte) (n : Z) : list byte :=
  if decide (0 <= off)
  then list_inserts (Z.to_nat off) (take (Z.to_nat n) src) dst
  else dst.

(** A [const char *] argument is [None] for the null pointer and [Some m]
    for a pointer to the bytes [m]; the string it denotes stops before the
    first NUL byte of [m] (or at the end of [m], where the terminator then
    stands). *)
Fixpoint c_str (m : list byte) : list byte :=
  match m with
  | [] => []
  | b :: m' => if Byte.eqb b x00 then [] else b :: c_str m'
  end.

Definition strlen (m : list byte) : Z := Z.of_nat (length (c_str m)).

(** ** The socket interface *)

(** [SITLSocket] is declared in [SITLSocket.h], outside the files covered
    here; [Stream] uses it through the six operations below, taken as an
    interface. A socket value stands for the socket object together with
    what its peer does, so that the operations are functions of it. *)
Module SITL.

Class Socket (T : Type) : Type := {
  (** [new SITLSocket()] *)
  create : T;
  (** [isConnected()] *)
  isConnected : T -> bool;
  (** [connect(host, port)]: the result and the socket afterwards *)
  connect : list byte -> Z -> T -> bool * T;
  (** [disconnect()] *)
  disconnect : T -> T;
  (** [read(buffer, maxLength)]: the returned count, the bytes put in
      [buffer], the socket afterwards *)
  read : Z -> T -> Z * list byte * T;
  (** [write(data, length)]: the returned count and the socket afterwards *)
  write : list byte -> T -> Z * T;
}.

End SITL.

(** ** The stream *)

(** The data members of [Stream] that [Arduino.cpp] uses. *)
Record Stream (Sock : Type) : Type := mkStream {
  fakeBuffer : list byte;
  cursor : Z;
  inputBuffer : list byte;
  inputCursor : Z;
  inputLength : Z;
  sitlSocket : option Sock;
}.

Arguments mkStream {Sock}.
Arguments fakeBuffer {Sock}.
Arguments cursor {Sock}.
Arguments inputBuffer {Sock}.
Arguments inputCursor {Sock}.
Arguments inputLength {Sock}.
Arguments sitlSocket {Sock}.

Section StreamOps.
Context {Sock : Type} {sockets : SITL.Socket Sock}.

Definition clearBuffer (s : Stream Sock) : Stream Sock :=
  {| cursor := 0;
     fakeBuffer := array_set (fakeBuffer s) 0 x00;
     inputCursor := 0;
     inputLength := 0;
     inputBuffer := array_set (inputBuffer s) 0 x00;
     sitlSocket := sitlSocket s |}.

(** [sizeof(tempBuffer)] in [pollSITLInput]. *)
Definition tempBuffer_size : Z := 256.

Definition pollSITLInput (s : Stream Sock) : Stream Sock :=
  match sitlSocket s with
  | None => s
  | Some sk =>
      if negb (SITL.isConnected sk) then s
      else
        (* a fully consumed buffer is reset before polling *)
        let drained := inputLength s <=? inputCursor s in
        let ic := if drained then 0 else inputCursor s in
        let il := if drained then 0 else inputLength s in
        let roomAvailable := sizeof (inputBuffer s) - il in
        if roomAvailable <=? 0
        then {| fakeBuffer := fakeBuffer s; cursor := cursor s;
                inputBuffer := inputBuffer s;
                inputCursor := ic; inputLength := il;
                sitlSocket := Some sk |}
        else
          let '(bytesRead, tempBuffer, sk') :=
            SITL.read (if tempBuffer_size <? roomAvailable
                       then tempBuffer_size else roomAvailable) sk in
          if 0 <? bytesRead
          then
            let il' := il + bytesRead in
            {| fakeBuffer := fakeBuffer s; cursor := cursor s;
               inputBuffer :=
                 array_set (memcpy (inputBuffer s) il tempBuffer bytesRead) il' x00;
               inputCursor := ic; inputLength := il';
               sitlSocket := Some sk' |}
          else
            {| fakeBuffer := fakeBuffer s; cursor := cursor s;
               inputBuffer := inputBuffer s;
               inputCursor := ic; inputLength := il;
               sitlSocket := Some sk' |}
  end.

Definition available (s : Stream Sock) : bool * Stream Sock :=
  let s1 := pollSITLInput s in
  (inputCursor s1 <? inputLength s1, s1).

Definition read (s : Stream Sock) : Z * Stream Sock :=
  let s1 := pollSITLInput s in
  if inputLength s1 <=? inputCursor s1 then (-1, s1)
  else (byte_to_Z (array_get (inputBuffer s1) (inputCursor s1)),
        {| fakeBuffer := fakeBuffer s1; cursor := cursor s1;
           inputBuffer := inputBuffer s1;
           inputCursor := inputCursor s1 + 1; inputLength := inputLength s1;
           sitlSocket := sitlSocket s1 |}).

Definition simulateInput (data : option (list byte)) (s : Stream Sock) : Stream Sock :=
  match data with
  | None => s
  | Some m =>
      let len := strlen m in
      let len := if sizeof (inputBuffer s) <=? len
                 then sizeof (inputBuffer s) - 1 else len in
      {| fakeBuffer := fakeBuffer s; cursor := cursor s;
         inputBuffer := array_set (memcpy (inputBuffer s) 0 m len) len x00;
         inputCursor := 0; inputLength := len;
         sitlSocket := sitlSocket s |}
  end.

Definition peek (s : Stream Sock) : Z * Stream Sock :=
  let s1 := pollSITLInput s in
  if inputLength s1 <=? inputCursor s1 then (-1, s1)
  else (byte_to_Z (array_get (inputBuffer s1) (inputCursor s1)), s1).

(** The loop of [readBytesUntil]; [n] is [length - index], the number of
    iterations the loop condition still allows. [terminator] is the value
    of the [char] argument once promoted to [int] for the comparison with
    [c]: on a target whose [char] is signed, a byte above 127 is passed as
    a negative number. *)
Fixpoint readBytesUntil_loop (terminator : Z) (n : nat) (index : Z)
    (buffer : list byte) (s : Stream Sock) : Z * list byte * Stream Sock :=
  match n with
  | O => (index, buffer, s)
  | S n' =>
      let '(c, s1) := read s in
      if c <? 0 then (index, buffer, s1)
      else if c =? terminator then (index, buffer, s1)
      else readBytesUntil_loop terminator n' (index + 1)
             (array_set buffer index (Z_to_byte c)) s1
  end.

Definition readBytesUntil (terminator : Z) (buffer : list byte) (length : Z)
    (s : Stream Sock) : Z * list byte * Stream Sock :=
  if length <? 1 then (0, buffer, s)
  else readBytesUntil_loop terminator (Z.to_nat length) 0 buffer s.

Fixpoint readBytes_loop (n : nat) (count : Z)
    (buffer : list byte) (s : Stream Sock) : Z * list byte * Stream Sock :=
  match n with
  | O => (count, buffer, s)
  | S n' =>
      let '(c, s1) := read s in
      if c <? 0 then (count, buffer, s1)
      else readBytes_loop n' (count + 1)
             (array_set buffer count (Z_to_byte c)) s1
  end.

Definition readBytes (buffer : list byte) (length : Z)
    (s : Stream Sock) : Z * list byte * Stream Sock :=
  readBytes_loop (Z.to_nat length) 0 buffer s.

Definition write (b : byte) (s : Stream Sock) : Z * Stream Sock :=
  let s1 :=
    if cursor s <? sizeof (fakeBuffer s) - 1
    then {| fakeBuffer :=
              array_set (array_set (fakeBuffer s) (cursor s) b) (cursor s + 1) x00;
            cursor := cursor s + 1;
            inputBuffer := inputBuffer s;
            inputCursor := inputCursor s; inputLength := inputLength s;
            sitlSocket := sitlSocket s |}
    else s in
  let s2 :=
    match sitlSocket s1 with
    | Some sk =>
        if SITL.isConnected sk
        then {| fakeBuffer := fakeBuffer s1; cursor := cursor s1;
                inputBuffer := inputBuffer s1;
                inputCursor := inputCursor s1; inputLength := inputLength s1;
                sitlSocket := Some (snd (SITL.write [b] sk)) |}
        else s1
    | None => s1
    end in
  (1, s2).

Definition connectSITL (host : list byte) (port : Z) (s : Stream Sock)
    : bool * Stream Sock :=
  let sk := match sitlSocket s with Some sk => sk | None => SITL.create end in
  let sk1 := if SITL.isConnected sk then SITL.disconnect sk else sk in
  let '(ok, sk2) := SITL.connect host port sk1 in
  (ok, {| fakeBuffer := fakeBuffer s; cursor := cursor s;
          inputBuffer := inputBuffer s;
          inputCursor := inputCursor s; inputLength := inputLength s;
          sitlSocket := Some sk2 |}).

Definition disconnectSITL (s : Stream Sock) : Stream Sock :=
  match sitlSocket s with
  | Some _ =>
      {| fakeBuffer := fakeBuffer s; cursor := cursor s;
         inputBuffer := inputBuffer s;
         inputCursor := inputCursor s; inputLength := inputLength s;
         sitlSocket := None |}
  | None => s
  end.

Definition isSITLConnected (s : Stream Sock) : bool :=
  match sitlSocket s with
  | Some sk => SITL.isConnected sk
  | None => false
  end.

(** [n] successive calls of [read()]: the values returned, in order, and
    the stream afterwards. *)
Fixpoint read_n (n : nat) (s : Stream Sock) : list Z * Stream Sock :=
  match n with
  | O => ([], s)
  | S n' =>
      let '(c, s1) := read s in
      let '(cs, s2) := read_n n' s1 in
      (c :: cs, s2)
  end.

(** [write(b)] for each byte of [bs] in turn: the values returned and the
    stream afterwards. *)
Fixpoint write_all (bs : list byte) (s : Stream Sock) : list Z * Stream Sock :=
  match bs with
  | [] => ([], s)
  | b :: bs' =>
      let '(r, s1) := write b s in
      let '(rs, s2) := write_all bs' s1 in
      (r :: rs, s2)
  end.

(** The unread bytes of the input buffer. *)
Definition pending (s : Stream Sock) : list byte :=
  take (Z.to_nat (inputLength s - inputCursor s))
       (drop (Z.to_nat (inputCursor s)) (inputBuffer s)).

(** The bytes retained in the output log. *)
Definition logged (s : Stream Sock) : list byte :=
  take (Z.to_nat (cursor s)) (fakeBuffer s).

(** The invariant the data model states for the input buffer. *)
Definition input_invariant (s : Stream Sock) : Prop :=
  0 <= inputCursor s /\ inputCursor s <= inputLength s
  /\ inputLength s <= sizeof (inputBuffer s) - 1.

End StreamOps.

(** ** A socket for tests *)

(** Modelled from the spec: [SITLSocket], whose header and implementation
    are outside the files covered here. The spec describes it as a minimal owned
    TCP-style client connection exchanging raw, unframed bytes with a
    simulator, whose connect attempt either succeeds or leaves it
    disconnected, and whose read is one bounded read that returns promptly
    with the bytes currently available (zero or more, at most the requested
    number). The peer is part of the value: [accepting] says whether the
    simulator listens on the port, [incoming] holds the bytes it has sent
    and that were not read yet, [outgoing] the bytes sent to it. *)
Module TestSocket.

Record t : Type := mk {
  connected : bool;
  accepting : bool;
  incoming : list byte;
  outgoing : list byte;
}.

(** The socket object as created, in a world where the simulator accepts
    connections or not, and sends [sent] once connected. *)
Definition create (accepts : bool) (sent : list byte) : t :=
  {| connected := false; accepting := accepts; incoming := sent; outgoing := [] |}.

Definition isConnected (k : t) : bool := connected k.

Definition connect (host : list byte) (port : Z) (k : t) : bool * t :=
  (accepting k,
   {| connected := accepting k; accepting := accepting k;
      incoming := incoming k; outgoing := outgoing k |}).

Definition disconnect (k : t) : t :=
  {| connected := false; accepting := accepting k;
     incoming := incoming k; outgoing := outgoing k |}.

Definition read (maxLength : Z) (k : t) : Z * list byte * t :=
  if connected k
  then
    let chunk := take (Z.to_nat maxLength) (incoming k) in
    (sizeof chunk, chunk,
     {| connected := true; accepting := accepting k;
        incoming := drop (Z.to_nat maxLength) (incoming k);
        outgoing := outgoing k |})
  else (-1, [], k).

Definition write (data : list byte) (k : t) : Z * t :=
  if connected k
  then (sizeof data,
        {| connected := true; accepting := accepting k;
           incoming := incoming k; outgoing := outgoing k ++ data |})
  else (-1, k).

(** The interface, for a given behaviour of the simulator. *)
Definition socket (accepts : bool) (sent : list byte) : SITL.Socket t :=
  {| SITL.create := create accepts sent;
     SITL.isConnected := isConnected;
     SITL.connect := connect;
     SITL.disconnect := disconnect;
     SITL.read := read;
     SITL.write := write |}.

End TestSocket.

(** Nothing listens on the port: every connect attempt fails. *)
Definition port_closed : SITL.Socket TestSocket.t :=
  TestSocket.socket false [].

(** A simulator listens and sends the five bytes of "hello". *)
Definition simulator_up : SITL.Socket TestSocket.t :=
  TestSocket.socket true [x68; x65; x6c; x6c; x6f].

(** The host name "localhost". *)
Definition localhost : list byte :=
  [x6c; x6f; x63; x61; x6c; x68; x6f; x73; x74].

(** Modelled from the spec: a stream as constructed. The class declaration
    ([Arduino.h]) is outside the files covered here; by the spec the two buffers have
    fixed capacities decided at build time, both start empty, and the
    connection is created lazily on the first connect request. The
    capacities are the two arguments. *)
Definition newStream {Sock : Type} (log_capacity input_capacity : nat) : Stream Sock :=
  {| fakeBuffer := replicate log_capacity x00; cursor := 0;
     inputBuffer := replicate input_capacity x00;
     inputCursor := 0; inputLength := 0;
     sitlSocket := None |}.

(** ** Public operations as calls *)

(** The public operations that touch the input side, with their arguments. *)
Inductive call : Type :=
| Available
| Read
| Peek
| ReadBytes (buffer : list byte) (length : Z)
| ReadBytesUntil (terminator : Z) (buffer : list byte) (length : Z)
| SimulateInput (data : option (list byte))
| ClearBuffer.

(** The stream after a call. *)
Definition after {Sock : Type} {sockets : SITL.Socket Sock} (c : call) (s : Stream Sock)
    : Stream Sock :=
  match c with
  | Available => snd (available s)
  | Read => snd (read s)
  | Peek => snd (peek s)
  | ReadBytes buffer length => snd (readBytes buffer length s)
  | ReadBytesUntil t buffer length => snd (readBytesUntil t buffer length s)
  | SimulateInput data => simulateInput data s
  | ClearBuffer => clearBuffer s
  end.

(** The bound the input cursors do keep whatever the socket delivers: the
    length may reach the capacity itself. *)
Definition input_bounds {Sock : Type} (s : Stream Sock) : Prop :=
  0 <= inputCursor s /\ inputCursor s <= inputLength s
  /\ inputLength s <= sizeof (inputBuffer s).

(** A socket read returns no more than it was asked for. *)
Definition read_within_request (Sock : Type) {sockets : SITL.Socket Sock} : Prop :=
  forall (n : Z) (k : Sock), fst (fst (SITL.read n k)) <= n.

(** ** What a bounded read takes from a given input *)

(** The description of [readBytesUntil] in words, on a list of pending
    bytes: copy bytes until [n] are copied, the input is exhausted, or the
    terminator is met; the terminator is consumed and not copied. The result
    is the bytes copied and the number of bytes consumed. *)
Fixpoint bytes_until (terminator : Z) (n : nat) (input : list byte)
    : list byte * nat :=
  match n, input with
  | S n', b :: rest =>
      if byte_to_Z b =? terminator then ([], 1%nat)
      else let '(copied, used) := bytes_until terminator n' rest in
           (b :: copied, S used)
  | _, _ => ([], 0%nat)
  end.

(** The stream with its input cursor moved [k] bytes further. *)
Definition advance {Sock : Type} (k : Z) (s : Stream Sock) : Stream Sock :=
  {| fakeBuffer := fakeBuffer s; cursor := cursor s;
     inputBuffer := inputBuffer s;
     inputCursor := inputCursor s + k; inputLength := inputLength s;
     sitlSocket := sitlSocket s |}.

(** ** The terminator as a [char] *)


(** ** All public operations of a stream *)

(** [Stream::end()] and the destructor both do [disconnectSITL()]. *)
Definition Stream_end {Sock : Type} {sockets : SITL.Socket Sock}
    (s : Stream Sock) : Stream Sock :=
  disconnectSITL s.

(** A public operation with its arguments: the calls of the input side,
    [write], and the three operations on the connection. *)
Inductive op : Type :=
| OpCall (c : call)
| OpWrite (b : byte)
| OpConnect (host : list byte) (port : Z)
| OpDisconnect
| OpEnd.

Definition step {Sock : Type} {sockets : SITL.Socket Sock} (o : op) (s : Stream Sock)
    : Stream Sock :=
  match o with
  | OpCall c => after c s
  | OpWrite b => snd (write b s)
  | OpConnect host port => snd (connectSITL host port s)
  | OpDisconnect => disconnectSITL s
  | OpEnd => Stream_end s
  end.

(** A sequence of operations, first to last. *)
Definition run {Sock : Type} {sockets : SITL.Socket Sock} (ops : list op) (s : Stream Sock)
    : Stream Sock :=
  foldl (fun s o => step o s) s ops.

(** Whether an operation is a connect request. *)
Definition is_connect (o : op) : bool :=
  match o with
  | OpConnect _ _ => true
  | _ => false
  end.

(** The state of the output log that [write] and [clearBuffer] maintain:
    the cursor stays before the last slot and the slot under the cursor
    holds the terminator. *)
Definition log_invariant {Sock : Type} (s : Stream Sock) : Prop :=
  0 <= cursor s /\ cursor s <= sizeof (fakeBuffer s) - 1
  /\ array_get (fakeBuffer s) (cursor s) = x00.

(** ** Mocked analog pins *)

(** [mockAnalogValues] is a [std::map<int, int>]; an [int] is an integer of
    [Z] here, no arithmetic being done on pins or values. *)
Module Analog.

Definition analogRead (pin : Z) (mockAnalogValues : gmap Z Z) : Z :=
  match mockAnalogValues !! pin with
  | Some value => value
  | None => 512
  end.

Definition setMockAnalogRead (pin value : Z) (mockAnalogValues : gmap Z Z)
    : gmap Z Z :=
  <[pin := value]> mockAnalogValues.

Definition clearMockAnalogReads (mockAnalogValues : gmap Z Z) : gmap Z Z := ∅.

(** The two calls that change the map. *)
Inductive call : Type :=
| SetMock (pin value : Z)
| ClearMocks.

Definition step (k : call) (m : gmap Z Z) : gmap Z Z :=
  match k with
  | SetMock pin value => setMockAnalogRead pin value m
  | ClearMocks => clearMockAnalogReads m
  end.

(** A sequence of calls, first to last. *)
Definition run (ks : list call) (m : gmap Z Z) : gmap Z Z :=
  foldl (fun m k => step k m) m ks.

(** What a pin is expected to read after calls listed latest first: the
    value of the latest [SetMock] on that pin, unless a [ClearMocks] came after
    it. *)
Fixpoint latest (pin : Z) (latest_first : list call) : Z :=
  match latest_first with
  | [] => 512
  | ClearMocks :: _ => 512
  | SetMock p value :: earlier => if p =? pin then value else latest pin earlier
  end.

End Analog.

(** ** Busy waits *)

(** [spin_wait_us] reads the steady clock until enough microseconds have
    elapsed. The clock is the environment: [elapsed i] is what
    [duration_cast<microseconds>(now() - start_point).count()] gives at the
    [i]-th evaluation of the loop condition (from 0). The functions return
    the number of evaluations made; [fuel] bounds that number, and [None]
    means the bound was hit before the loop ended. *)
Module Delay.

(** [static_cast<long long>(us)] for a [uint64_t]. *)
Definition to_long_long (us : Z) : Z :=
  if us <? 2 ^ 63 then us else us - 2 ^ 64.

Fixpoint spin_loop (fuel : nat) (elapsed : nat -> Z) (i : nat) (us : Z) : option nat :=
  match fuel with
  | O => None
  | S fuel' =>
      if elapsed i <? to_long_long us
      then spin_loop fuel' elapsed (S i) us
      else Some (S i)
  end.

Definition spin_wait_us (fuel : nat) (elapsed : nat -> Z) (us : Z) : option nat :=
  spin_loop fuel elapsed 0 us.

(** [delay(unsigned long ms)] *)
Definition delay_unsigned (fuel : nat) (elapsed : nat -> Z) (ms : Z) : option nat :=
  spin_wait_us fuel elapsed (Clock.u64 (Clock.u64 ms * 1000)).

(** [delay(int ms)] *)
Definition delay (fuel : nat) (elapsed : nat -> Z) (ms : Z) : option nat :=
  if ms <=? 0 then Some 0%nat
  else spin_wait_us fuel elapsed (Clock.u64 (Clock.u64 ms * 1000)).

(** [delayMicroseconds(unsigned int us)] *)
Definition delayMicroseconds (fuel : nat) (elapsed : nat -> Z) (us : Z) : option nat :=
  spin_wait_us fuel elapsed (Clock.u64 us).

End Delay.

(** ** The clock after a history of calls *)

(** The override in force after calls listed latest first: the argument of
    the latest [setMillis] unless a [resetMillis] came after it. *)
Fixpoint last_override (latest_first : list Clock.call) : option Z :=
  match latest_first with
  | [] => None
  | Clock.CallSetMillis ms :: _ => Some (Clock.u64 ms)
  | Clock.CallResetMillis :: _ => None
  | _ :: earlier => last_override earlier
  end.

(** ** Operations that refill *)

(** The operations that begin with [pollSITLInput()]. *)
Definition polls (o : op) : bool :=
  match o with
  | OpCall Available | OpCall Read | OpCall Peek
  | OpCall (ReadBytes _ _) | OpCall (ReadBytesUntil _ _ _) => true
  | _ => false
  end.

(** A sequence of operations during which no refill takes bytes from a
    socket: each polling operation finds the stream without a connected
    socket. *)
Fixpoint no_refill {Sock : Type} {sockets : SITL.Socket Sock}
    (ops : list op) (s : Stream Sock) : Prop :=
  match ops with
  | [] => True
  | o :: rest =>
      (polls o = true -> isSITLConnected s = false) /\ no_refill rest (step o s)
  end.

(** The operations that are not calls of the input side. *)
Definition leaves_input (o : op) : bool :=
  match o with
  | OpCall _ => false
  | _ => true
  end.

(** ** The file-backed storage mock *)

(** [MockFile] wraps a [FILE *]. The C library is the environment: its
    calls are an interface over a type of open files and a type of worlds
    (the file system and the state of the streams), each call returning its
    result and the world afterwards. *)
Module Stdio.

Inductive whence : Type := SEEK_SET | SEEK_END.

Class Lib (File World : Type) : Type := {
  fopen : list byte -> list byte -> World -> option File * World;
  fclose : File -> World -> Z * World;
  (** [fwrite(data, 1, size, f)]: the number of bytes written *)
  fwrite : list byte -> File -> World -> Z * World;
  fflush : File -> World -> Z * World;
  fgetc : File -> World -> Z * World;
  (** [fread(buffer, 1, length, f)]: the count and the bytes stored *)
  fread : Z -> File -> World -> Z * list byte * World;
  ftell : File -> World -> Z * World;
  fseek : File -> Z -> whence -> World -> Z * World;
  remove : list byte -> World -> Z * World;
}.

End Stdio.

Module MockFile.

(** Conversion to [uint32_t]. *)
Definition u32 (z : Z) : Z := z mod 2 ^ 32.

(** The only data member, [_file]; [None] is the null pointer. *)
Record t (File : Type) : Type := mk { _file : option File }.
Arguments mk {File}.
Arguments _file {File}.

Section Methods.
Context {File World : Type} {libc : Stdio.Lib File World}.

(** The constructor [MockFile(filename, mode)]. *)
Definition create (filename mode : list byte) (w : World) : t File * World :=
  let '(f, w1) := Stdio.fopen filename mode w in
  ({| _file := f |}, w1).

(** [write(uint8_t b)] *)
Definition write (b : byte) (mf : t File) (w : World) : Z * World :=
  match _file mf with
  | None => (0, w)
  | Some f => Stdio.fwrite [b] f w
  end.

(** [write(const uint8_t *buffer, size_t size)], [data] being the [size]
    bytes at [buffer]. *)
Definition write_buffer (data : list byte) (mf : t File) (w : World) : Z * World :=
  match _file mf with
  | None => (0, w)
  | Some f => Stdio.fwrite data f w
  end.

Definition flush (mf : t File) (w : World) : bool * World :=
  match _file mf with
  | None => (false, w)
  | Some f => let '(r, w1) := Stdio.fflush f w in (r =? 0, w1)
  end.

Definition read (mf : t File) (w : World) : Z * World :=
  match _file mf with
  | None => (-1, w)
  | Some f => Stdio.fgetc f w
  end.

(** [readBytes(buffer, length)]: the count and the bytes stored in
    [buffer]. *)
Definition readBytes (length : Z) (mf : t File) (w : World) : Z * list byte * World :=
  match _file mf with
  | None => (0, [], w)
  | Some f => Stdio.fread length f w
  end.

Definition available (mf : t File) (w : World) : Z * World :=
  match _file mf with
  | None => (0, w)
  | Some f =>
      let '(current, w1) := Stdio.ftell f w in
      let '(_, w2) := Stdio.fseek f 0 Stdio.SEEK_END w1 in
      let '(end_, w3) := Stdio.ftell f w2 in
      let '(_, w4) := Stdio.fseek f current Stdio.SEEK_SET w3 in
      (end_ - current, w4)
  end.

Definition seek (pos : Z) (mf : t File) (w : World) : bool * World :=
  match _file mf with
  | None => (false, w)
  | Some f =>
      let '(r, w1) := Stdio.fseek f (u32 pos) Stdio.SEEK_SET w in (r =? 0, w1)
  end.

Definition position (mf : t File) (w : World) : Z * World :=
  match _file mf with
  | None => (0, w)
  | Some f => let '(p, w1) := Stdio.ftell f w in (u32 p, w1)
  end.

Definition size (mf : t File) (w : World) : Z * World :=
  match _file mf with
  | None => (0, w)
  | Some f =>
      let '(current, w1) := Stdio.ftell f w in
      let '(_, w2) := Stdio.fseek f 0 Stdio.SEEK_END w1 in
      let '(sz, w3) := Stdio.ftell f w2 in
      let '(_, w4) := Stdio.fseek f current Stdio.SEEK_SET w3 in
      (u32 sz, w4)
  end.

Definition close (mf : t File) (w : World) : bool * t File * World :=
  match _file mf with
  | None => (false, mf, w)
  | Some f =>
      let '(r, w1) := Stdio.fclose f w in
      (r =? 0, {| _file := None |}, w1)
  end.

Definition isOpen (mf : t File) : bool :=
  match _file mf with
  | None => false
  | Some _ => true
  end.

(** The destructor. *)
Definition destroy (mf : t File) (w : World) : World :=
  match _file mf with
  | None => w
  | Some f => snd (Stdio.fclose f w)
  end.

End Methods.

End MockFile.

Module MockStorage.

Section Methods.
Context {File World : Type} {libc : Stdio.Lib File World}.

(** The mode strings "rb", "ab", "wb" and "r". *)
Definition mode_rb : list byte := [x72; x62].
Definition mode_ab : list byte := [x61; x62].
Definition mode_wb : list byte := [x77; x62].
Definition mode_r : list byte := [x72].

Definition begin : bool := true.
Definition ok : bool := true.

Definition openRead (filename : list byte) (w : World) : MockFile.t File * World :=
  MockFile.create filename mode_rb w.

Definition openWrite (filename : list byte) (append : bool) (w : World)
    : MockFile.t File * World :=
  MockFile.create filename (if append then mode_ab else mode_wb) w.

Definition exists_ (filename : list byte) (w : World) : bool * World :=
  match Stdio.fopen filename mode_r w with
  | (Some file, w1) => (true, snd (Stdio.fclose file w1))
  | (None, w1) => (false, w1)
  end.

Definition remove (filename : list byte) (w : World) : bool * World :=
  let '(r, w1) := Stdio.remove filename w in (r =? 0, w1).

End Methods.

End MockStorage.

(** ** Fake sensors *)

(** [FakeBarometer]. A [double] is a value of an arbitrary type [D]: the
    model follows where values go and does no arithmetic on them. The two
    expressions of [setAltitude] and the inherited [calcAltitude] are
    functions on [D] given from outside. *)
Module FakeBarometer.

Record t (D : Type) : Type := mk {
  _healthy : bool;
  _altitude : D;
  _shouldFailInit : bool;
  fakeP : D;
  fakeT : D;
  fakeAlt : D;
  fakeAltSet : bool;
  (* members of the base classes *)
  initialized : bool;
  healthy : bool;
  pressure : D;
  temp : D;
  altitudeASL : D;
}.
Arguments mk {D}.
Arguments _healthy {D}.
Arguments _altitude {D}.
Arguments _shouldFailInit {D}.
Arguments fakeP {D}.
Arguments fakeT {D}.
Arguments fakeAlt {D}.
Arguments fakeAltSet {D}.
Arguments initialized {D}.
Arguments healthy {D}.
Arguments pressure {D}.
Arguments temp {D}.
Arguments altitudeASL {D}.

Section Methods.
Context {D : Type}.
(** [calcAltitude] of [Barometer]. *)
Variable calcAltitude : D -> D.
(** [101325.0 * pow(1.0 - altM / 44330.0, 5.255)] and
    [15.0 - altM * 0.0065]. *)
Variable pressure_at : D -> D.
Variable temperature_at : D -> D.

Definition reset (b : t D) : t D :=
  {| _healthy := _healthy b; _altitude := _altitude b;
     _shouldFailInit := _shouldFailInit b;
     fakeP := fakeP b; fakeT := fakeT b; fakeAlt := fakeAlt b;
     fakeAltSet := fakeAltSet b;
     initialized := false; healthy := healthy b;
     pressure := pressure b; temp := temp b; altitudeASL := altitudeASL b |}.

Definition read (b : t D) : Z * t D :=
  (0, {| _healthy := _healthy b; _altitude := _altitude b;
         _shouldFailInit := _shouldFailInit b;
         fakeP := fakeP b; fakeT := fakeT b; fakeAlt := fakeAlt b;
         fakeAltSet := fakeAltSet b;
         initialized := initialized b; healthy := _healthy b;
         pressure := fakeP b; temp := fakeT b; altitudeASL := altitudeASL b |}).

Definition update (b : t D) : Z * t D :=
  let '(r, b1) := read b in
  if negb (r =? 0) then (-1, b1)
  else if negb (fakeAltSet b1)
       then (0, {| _healthy := _healthy b1; _altitude := _altitude b1;
                   _shouldFailInit := _shouldFailInit b1;
                   fakeP := fakeP b1; fakeT := fakeT b1; fakeAlt := fakeAlt b1;
                   fakeAltSet := fakeAltSet b1;
                   initialized := initialized b1; healthy := healthy b1;
                   pressure := pressure b1; temp := temp b1;
                   altitudeASL := calcAltitude (pressure b1) |})
       else (0, b1).

Definition setAltitude (altM : D) (b : t D) : t D :=
  {| _healthy := _healthy b; _altitude := altM;
     _shouldFailInit := _shouldFailInit b;
     fakeP := pressure_at altM; fakeT := temperature_at altM; fakeAlt := altM;
     fakeAltSet := true;
     initialized := initialized b; healthy := healthy b;
     pressure := pressure_at altM; temp := temperature_at altM;
     altitudeASL := altM |}.

Definition set (p t' : D) (b : t D) : t D :=
  {| _healthy := _healthy b; _altitude := _altitude b;
     _shouldFailInit := _shouldFailInit b;
     fakeP := p; fakeT := t'; fakeAlt := fakeAlt b;
     fakeAltSet := false;
     initialized := initialized b; healthy := healthy b;
     pressure := p; temp := t'; altitudeASL := altitudeASL b |}.

Definition init (b : t D) : Z * t D :=
  if _shouldFailInit b then (-1, b)
  else (0, {| _healthy := _healthy b; _altitude := _altitude b;
              _shouldFailInit := _shouldFailInit b;
              fakeP := fakeP b; fakeT := fakeT b; fakeAlt := fakeAlt b;
              fakeAltSet := fakeAltSet b;
              initialized := true; healthy := true;
              pressure := pressure b; temp := temp b;
              altitudeASL := altitudeASL b |}).

Definition isHealthy (b : t D) : bool := _healthy b.

(** [n] calls of [update()] in a row: the stream of results is dropped, the
    sensor afterwards is returned. *)
Fixpoint updates (n : nat) (b : t D) : t D :=
  match n with
  | O => b
  | S n' => updates n' (snd (update b))
  end.

End Methods.

End FakeBarometer.

(** [FakeAccel]; [FakeGyro] and [FakeMag] are the same code on [angVel]
    and [mag]. A [Vector<3>] is a value of an arbitrary type [V]. *)
Module FakeAccel.

Record t (V : Type) : Type := mk {
  _healthy : bool;
  _reading : V;
  _shouldFailInit : bool;
  (* members of the base classes *)
  acc : V;
  initialized : bool;
  healthy : bool;
}.
Arguments mk {V}.
Arguments _healthy {V}.
Arguments _reading {V}.
Arguments _shouldFailInit {V}.
Arguments acc {V}.
Arguments initialized {V}.
Arguments healthy {V}.

Section Methods.
Context {V : Type}.

Definition init (a : t V) : Z * t V :=
  if _shouldFailInit a then (-1, a)
  else (0, {| _healthy := _healthy a; _reading := _reading a;
              _shouldFailInit := _shouldFailInit a;
              acc := _reading a; initialized := true; healthy := true |}).

Definition read (a : t V) : Z * t V :=
  (0, {| _healthy := _healthy a; _reading := _reading a;
         _shouldFailInit := _shouldFailInit a;
         acc := _reading a; initialized := initialized a;
         healthy := _healthy a |}).

Definition set (accel : V) (a : t V) : t V :=
  {| _healthy := _healthy a; _reading := accel;
     _shouldFailInit := _shouldFailInit a;
     acc := accel; initialized := initialized a; healthy := healthy a |}.

Definition isHealthy (a : t V) : bool := _healthy a.

Definition reset (a : t V) : t V :=
  {| _healthy := _healthy a; _reading := _reading a;
     _shouldFailInit := _shouldFailInit a;
     acc := acc a; initialized := false; healthy := healthy a |}.

(** The calls that do not set a reading. *)
Inductive call : Type := Init | Read | Reset.

Definition step (k : call) (a : t V) : t V :=
  match k with
  | Init => snd (init a)
  | Read => snd (read a)
  | Reset => reset a
  end.

Definition run (ks : list call) (a : t V) : t V :=
  foldl (fun a k => step k a) a ks.

End Methods.

End FakeAccel.
Section ClockFacts.
Import Clock.

Lemma u64_small z : 0 <= z < 2 ^ 64 -> u64 z = z.
Proof. intros Hz. unfold u64. apply Z.mod_small. exact Hz. Qed.

Lemma u64_range z : 0 <= u64 z < 2 ^ 64.
Proof. unfold u64. apply Z.mod_pos_bound. lia. Qed.

Lemma step_start k c : start (snd (step k c)) = start c.
Proof. destruct k; reflexivity. Qed.

Lemma run_start ks : forall c, start (snd (run ks c)) = start c.
Proof.
  induction ks as [|k ks IH]; intros c; simpl; [reflexivity|].
  destruct (step k c) as [r c1] eqn:Hs.
  destruct (run ks c1) as [rs c2] eqn:Hr. simpl.
  replace c2 with (snd (run ks c1)) by (rewrite Hr; reflexivity).
  rewrite IH. replace c1 with (snd (step k c)) by (rewrite Hs; reflexivity).
  apply step_start.
Qed.

(** Reads leave an overridden clock as it is and answer from the override. *)
Lemma run_reads_frozen ms ks :
  forallb is_read ks = true ->
  forall c, useFakeMillis c = true -> fakeMillis c = ms ->
  run ks c = (map (frozen_answer ms) ks, c).
Proof.
  induction ks as [|k ks IH]; intros Hks c Hu Hf; simpl in *; [reflexivity|].
  apply andb_prop in Hks as [Hk Hks].
  destruct k; simpl in Hk; try discriminate; simpl;
    rewrite (IH Hks c Hu Hf); unfold millis, micros; rewrite Hu, Hf; reflexivity.
Qed.

End ClockFacts.

(** C5 (as amended). After [setMillis(ms)], every [millis()] returns [ms]
    and every [micros()] returns [ms * 1000] reduced modulo [2^64], which is
    [ms * 1000] itself whenever that product is below [2^64], whatever the
    system clock reads and however many reads follow, as long as no
    [setMillis] or [resetMillis] comes in between; for [ms = 5000] the two
    values are [5000] and [5000000]. *)
Theorem override_freezes_clock :
  forall (ms : Z) (c : Clock.state) (reads : list Clock.call),
    0 <= ms < 2 ^ 64 ->
    forallb Clock.is_read reads = true ->
    Clock.run reads (Clock.setMillis ms c)
      = (map (Clock.frozen_answer ms) reads, Clock.setMillis ms c)
    /\ (forall t, Clock.millis t (Clock.setMillis ms c) = ms)
    /\ (forall t, Clock.micros t (Clock.setMillis ms c) = Clock.u64 (ms * 1000))
    /\ (ms * 1000 < 2 ^ 64 ->
        forall t, Clock.micros t (Clock.setMillis ms c) = ms * 1000)
    /\ (ms = 5000 ->
        forall t, Clock.millis t (Clock.setMillis ms c) = 5000
                  /\ Clock.micros t (Clock.setMillis ms c) = 5000000).
Proof.
  intros ms c reads Hms Hreads.
  assert (Hf : Clock.fakeMillis (Clock.setMillis ms c) = ms)
    by (simpl; apply u64_small; exact Hms).
  split; [apply run_reads_frozen; [exact Hreads|reflexivity|exact Hf]|].
  split; [intros t; unfold Clock.millis; simpl; apply u64_small; exact Hms|].
  split; [intros t; unfold Clock.micros; simpl; rewrite (u64_small ms Hms); reflexivity|].
  split.
  - intros Hfit t. unfold Clock.micros. simpl. rewrite (u64_small ms Hms).
    apply u64_small. lia.
  - intros -> t. split; reflexivity.
Qed.

Lemma override_freezes_clock_witness :
  Clock.run [Clock.CallMillis 1700000000123; Clock.CallMicros 1700000000123456;
             Clock.CallMillis 1700000009999]
            (Clock.setMillis 5000 (Clock.init 1700000000000 1700000000000000))
  = ([Some 5000; Some 5000000; Some 5000],
     Clock.setMillis 5000 (Clock.init 1700000000000 1700000000000000)).
Proof.
  exact (proj1 (override_freezes_clock 5000
                  (Clock.init 1700000000000 1700000000000000)
                  [Clock.CallMillis 1700000000123; Clock.CallMicros 1700000000123456;
                   Clock.CallMillis 1700000009999]
                  ltac:(lia) eq_refl)).
Defined.

(** C5 fails as stated for an override whose thousandfold does not fit
    64 bits: after [setMillis(18446744073709552)], [micros()] returns 384,
    not 18446744073709552000. *)
Lemma micros_override_wraps :
  let ms := 18446744073709552 in
  let c := Clock.setMillis ms (Clock.init 1700000000000 1700000000000000) in
  0 <= ms < 2 ^ 64
  /\ Clock.millis 1700000000123 c = ms
  /\ Clock.micros 1700000000123456 c = 384
  /\ Clock.micros 1700000000123456 c <> ms * 1000.
Proof.
  vm_compute. repeat split; try reflexivity; discriminate.
Qed.

(** C6. Whatever calls were made before (overrides set, read, cleared),
    once [resetMillis()] has been called [millis()] is again the system
    clock minus the start point captured at process start: the start point
    is never reassigned, and the value is the one an un-overridden clock
    returns at the same instant. *)
Theorem reset_resumes_from_original_start :
  forall (epoch_ms0 epoch_us0 : Z) (history : list Clock.call) (ms t : Z),
    let c0 := Clock.init epoch_ms0 epoch_us0 in
    let c := Clock.resetMillis (Clock.setMillis ms (snd (Clock.run history c0))) in
    Clock.start c = Clock.start c0
    /\ Clock.millis t c = Clock.u64 (t - Clock.start c0)
    /\ Clock.millis t c = Clock.millis t c0.
Proof.
  intros e0 u0 history ms t c0 c.
  assert (Hs : Clock.start c = Clock.start c0).
  { unfold c. simpl. apply run_start. }
  split; [exact Hs|].
  split; unfold Clock.millis; simpl; f_equal; f_equal; apply run_start.
Qed.


(** ** Facts on bytes and arrays *)

Section ArrayFacts.

Lemma byte_to_Z_range b : 0 <= byte_to_Z b <= 255.
Proof.
  unfold byte_to_Z. pose proof (Byte.to_N_bounded b) as Hb. lia.
Qed.

Lemma Z_to_byte_to_Z b : Z_to_byte (byte_to_Z b) = b.
Proof.
  unfold Z_to_byte. pose proof (byte_to_Z_range b) as Hr.
  rewrite Z.mod_small by lia.
  unfold byte_to_Z. rewrite N2Z.id, Byte.of_to_N. reflexivity.
Qed.

Lemma sizeof_nonneg a : 0 <= sizeof a.
Proof. unfold sizeof. lia. Qed.

Lemma sizeof_array_set a i b : sizeof (array_set a i b) = sizeof a.
Proof.
  unfold sizeof, array_set. case_decide; [|reflexivity].
  rewrite length_insert. reflexivity.
Qed.

Lemma sizeof_memcpy dst off src n : sizeof (memcpy dst off src n) = sizeof dst.
Proof.
  unfold sizeof, memcpy. case_decide; [|reflexivity].
  rewrite length_inserts. reflexivity.
Qed.

Lemma array_get_set_eq a i b :
  0 <= i < sizeof a -> array_get (array_set a i b) i = b.
Proof.
  unfold sizeof, array_get, array_set. intros Hi.
  rewrite !decide_True by lia.
  rewrite list_lookup_insert_eq by lia. reflexivity.
Qed.

Lemma array_get_set_ne a i j b :
  i <> j -> array_get (array_set a i b) j = array_get a j.
Proof.
  unfold array_get, array_set. intros Hij.
  destruct (decide (0 <= j)) as [Hj|Hj]; [|reflexivity].
  destruct (decide (0 <= i)) as [Hi|Hi]; [|reflexivity].
  rewrite list_lookup_insert_ne by lia. reflexivity.
Qed.

Lemma array_set_out_of_bounds a i b :
  sizeof a <= i -> array_set a i b = a.
Proof.
  unfold sizeof, array_set. intros Hi. case_decide; [|reflexivity].
  apply list_insert_ge. lia.
Qed.

(** The first [n] bytes after a copy of [n] bytes to the front. *)
Lemma take_memcpy_front dst src (n : nat) :
  (n <= length src)%nat -> (n <= length dst)%nat ->
  take n (memcpy dst 0 src (Z.of_nat n)) = take n src.
Proof.
  intros Hsrc Hdst. unfold memcpy. rewrite decide_True by lia.
  rewrite Nat2Z.id. change (Z.to_nat 0) with 0%nat.
  rewrite <- (take_drop n dst) at 1.
  rewrite list_inserts_0_r by (rewrite !length_take; lia).
  rewrite take_app_length' by (rewrite length_take; lia).
  reflexivity.
Qed.

Lemma take_array_set_above a (n : nat) i b :
  Z.of_nat n <= i -> take n (array_set a i b) = take n a.
Proof.
  intros Hi. unfold array_set. case_decide; [|reflexivity].
  apply take_insert_ge. lia.
Qed.

Lemma c_str_no_nul m : Forall (fun b => b <> x00) (c_str m).
Proof.
  induction m as [|b m IH]; simpl; [constructor|].
  destruct (Byte.eqb b x00) eqn:Hb; [constructor|].
  constructor; [|exact IH].
  apply Byte.eqb_false. exact Hb.
Qed.

Lemma c_str_prefix m : c_str m = take (length (c_str m)) m.
Proof.
  induction m as [|b m IH]; simpl; [reflexivity|].
  destruct (Byte.eqb b x00); simpl; [reflexivity|].
  f_equal. exact IH.
Qed.

Lemma c_str_length m : (length (c_str m) <= length m)%nat.
Proof.
  induction m as [|b m IH]; simpl; [lia|].
  destruct (Byte.eqb b x00); simpl; lia.
Qed.

(** A string without NUL denotes itself. *)
Lemma c_str_id m : Forall (fun b => b <> x00) m -> c_str m = m.
Proof.
  induction 1 as [|b m Hb _ IH]; simpl; [reflexivity|].
  destruct (Byte.eqb b x00) eqn:Hq.
  - apply Byte.byte_dec_bl in Hq. contradiction.
  - f_equal. exact IH.
Qed.

End ArrayFacts.

(** ** Facts on the stream operations *)

Section StreamFacts.
Context {Sock : Type} {sockets : SITL.Socket Sock}.
Implicit Types s : Stream Sock.

(** Without a connected socket the refill step does nothing. *)
Lemma poll_not_connected s :
  isSITLConnected s = false -> pollSITLInput s = s.
Proof.
  unfold isSITLConnected, pollSITLInput.
  destruct (sitlSocket s) as [sk|]; [|reflexivity].
  intros ->. reflexivity.
Qed.

Lemma read_not_connected_empty s :
  isSITLConnected s = false -> inputLength s <= inputCursor s ->
  read s = (-1, s).
Proof.
  intros Hc Hle. unfold read. rewrite (poll_not_connected s Hc).
  destruct (Z.leb_spec (inputLength s) (inputCursor s)); [reflexivity|lia].
Qed.

Lemma read_not_connected_next s :
  isSITLConnected s = false -> inputCursor s < inputLength s ->
  read s =
    (byte_to_Z (array_get (inputBuffer s) (inputCursor s)),
     {| fakeBuffer := fakeBuffer s; cursor := cursor s;
        inputBuffer := inputBuffer s;
        inputCursor := inputCursor s + 1; inputLength := inputLength s;
        sitlSocket := sitlSocket s |}).
Proof.
  intros Hc Hlt. unfold read. rewrite (poll_not_connected s Hc).
  destruct (Z.leb_spec (inputLength s) (inputCursor s)); [lia|reflexivity].
Qed.

Lemma read_n_exhausted n : forall s,
  isSITLConnected s = false -> inputLength s <= inputCursor s ->
  read_n n s = (replicate n (-1), s).
Proof.
  induction n as [|n IH]; intros s Hc Hle; simpl; [reflexivity|].
  rewrite (read_not_connected_empty s Hc Hle), (IH s Hc Hle). reflexivity.
Qed.

Lemma pending_empty s : inputLength s <= inputCursor s -> pending s = [].
Proof.
  intros Hle. unfold pending.
  replace (Z.to_nat (inputLength s - inputCursor s)) with 0%nat by lia.
  reflexivity.
Qed.

Lemma pending_next s :
  0 <= inputCursor s < inputLength s -> inputLength s <= sizeof (inputBuffer s) ->
  pending s =
    array_get (inputBuffer s) (inputCursor s)
    :: take (Z.to_nat (inputLength s - (inputCursor s + 1)))
            (drop (Z.to_nat (inputCursor s + 1)) (inputBuffer s)).
Proof.
  unfold pending, array_get, sizeof. intros Hc Hl.
  rewrite decide_True by lia.
  destruct (lookup_lt_is_Some_2 (inputBuffer s) (Z.to_nat (inputCursor s)))
    as [b Hb]; [lia|].
  rewrite Hb. simpl.
  rewrite (drop_S _ _ _ Hb).
  replace (Z.to_nat (inputLength s - inputCursor s))
    with (S (Z.to_nat (inputLength s - (inputCursor s + 1)))) by lia.
  replace (Z.to_nat (inputCursor s + 1)) with (S (Z.to_nat (inputCursor s))) by lia.
  reflexivity.
Qed.

(** An unconnected stream hands out its pending bytes one per [read()],
    then answers [-1] for ever; the cursor ends on [inputLength]. *)
Lemma read_n_drains (k : nat) : forall s (n : nat),
  isSITLConnected s = false ->
  0 <= inputCursor s -> inputLength s <= sizeof (inputBuffer s) ->
  Z.of_nat k = inputLength s - inputCursor s ->
  read_n (k + n) s =
    (map byte_to_Z (pending s) ++ replicate n (-1),
     {| fakeBuffer := fakeBuffer s; cursor := cursor s;
        inputBuffer := inputBuffer s;
        inputCursor := inputLength s; inputLength := inputLength s;
        sitlSocket := sitlSocket s |}).
Proof.
  induction k as [|k IH]; intros s n Hc H0 Hl Hk.
  - simpl. rewrite read_n_exhausted by (try exact Hc; lia).
    rewrite pending_empty by lia. simpl.
    destruct s as [fb cu ib ic il so]. simpl in *. do 2 f_equal. lia.
  - change (S k + n)%nat with (S (k + n)). simpl.
    rewrite read_not_connected_next by (try exact Hc; lia).
    rewrite IH; simpl; try lia; try exact Hc.
    rewrite (pending_next s) by lia. reflexivity.
Qed.

Lemma simulateInput_connection data s :
  isSITLConnected (simulateInput data s) = isSITLConnected s.
Proof. destruct data; reflexivity. Qed.

(** Strings that do not fit are cut to [sizeof(inputBuffer) - 1] bytes. *)
Lemma simulateInput_length m s :
  inputLength (simulateInput (Some m) s)
  = if sizeof (inputBuffer s) <=? strlen m
    then sizeof (inputBuffer s) - 1 else strlen m.
Proof. reflexivity. Qed.

Lemma simulateInput_pending m s :
  strlen m <= sizeof (inputBuffer s) - 1 ->
  pending (simulateInput (Some m) s) = c_str m.
Proof.
  intros Hfit. unfold pending, simulateInput. simpl.
  destruct (Z.leb_spec (sizeof (inputBuffer s)) (strlen m)) as [Hle|Hlt]; [lia|].
  rewrite Z.sub_0_r. change (Z.to_nat 0) with 0%nat. rewrite drop_0.
  unfold strlen in *. rewrite Nat2Z.id.
  rewrite take_array_set_above by lia.
  rewrite take_memcpy_front.
  - symmetry. apply c_str_prefix.
  - apply c_str_length.
  - unfold sizeof in Hlt. lia.
Qed.


Lemma read_range s : -1 <= fst (read s) <= 255.
Proof.
  unfold read.
  destruct (inputLength (pollSITLInput s) <=? inputCursor (pollSITLInput s));
    simpl; [lia|].
  pose proof (byte_to_Z_range
                (array_get (inputBuffer (pollSITLInput s))
                           (inputCursor (pollSITLInput s)))). lia.
Qed.

End StreamFacts.

(** ** Facts on the output log *)

Section LogFacts.
Context {Sock : Type} {sockets : SITL.Socket Sock}.
Implicit Types s : Stream Sock.

(** [write] never touches the input side. *)
Lemma write_frame b s :
  inputBuffer (snd (write b s)) = inputBuffer s
  /\ inputCursor (snd (write b s)) = inputCursor s
  /\ inputLength (snd (write b s)) = inputLength s.
Proof.
  unfold write.
  destruct (cursor s <? sizeof (fakeBuffer s) - 1); simpl;
    destruct (sitlSocket s) as [sk|]; simpl;
    try destruct (SITL.isConnected sk); simpl; auto.
Qed.

Lemma write_not_connected b s :
  isSITLConnected s = false ->
  sitlSocket (snd (write b s)) = sitlSocket s
  /\ inputBuffer (snd (write b s)) = inputBuffer s
  /\ inputCursor (snd (write b s)) = inputCursor s
  /\ inputLength (snd (write b s)) = inputLength s.
Proof.
  unfold write, isSITLConnected.
  destruct (cursor s <? sizeof (fakeBuffer s) - 1); simpl;
    destruct (sitlSocket s) as [sk|] eqn:Hs; simpl; intros Hk;
    rewrite ?Hk; simpl; rewrite ?Hs; auto.
Qed.

Lemma write_appends b s :
  cursor s < sizeof (fakeBuffer s) - 1 ->
  cursor (snd (write b s)) = cursor s + 1
  /\ fakeBuffer (snd (write b s))
     = array_set (array_set (fakeBuffer s) (cursor s) b) (cursor s + 1) x00.
Proof.
  intros Hroom. unfold write.
  destruct (Z.ltb_spec (cursor s) (sizeof (fakeBuffer s) - 1)); [|lia].
  simpl. destruct (sitlSocket s) as [sk|]; [|auto].
  destruct (SITL.isConnected sk); auto.
Qed.

Lemma write_drops b s :
  sizeof (fakeBuffer s) - 1 <= cursor s ->
  cursor (snd (write b s)) = cursor s
  /\ fakeBuffer (snd (write b s)) = fakeBuffer s.
Proof.
  intros Hfull. unfold write.
  destruct (Z.ltb_spec (cursor s) (sizeof (fakeBuffer s) - 1)); [lia|].
  simpl. destruct (sitlSocket s) as [sk|]; [|auto].
  destruct (SITL.isConnected sk); auto.
Qed.

Lemma sizeof_write b s :
  sizeof (fakeBuffer (snd (write b s))) = sizeof (fakeBuffer s).
Proof.
  destruct (Z.lt_ge_cases (cursor s) (sizeof (fakeBuffer s) - 1)) as [Hr|Hf].
  - destruct (write_appends b s Hr) as [_ ->].
    rewrite !sizeof_array_set. reflexivity.
  - destruct (write_drops b s Hf) as [_ ->]. reflexivity.
Qed.

Lemma logged_write_appends b s :
  0 <= cursor s < sizeof (fakeBuffer s) - 1 ->
  logged (snd (write b s)) = logged s ++ [b].
Proof.
  intros Hroom. unfold logged.
  destruct (write_appends b s) as [-> ->]; [lia|].
  unfold sizeof in Hroom.
  replace (Z.to_nat (cursor s + 1)) with (S (Z.to_nat (cursor s))) by lia.
  unfold array_set. rewrite !decide_True by lia.
  rewrite take_insert_ge by lia.
  rewrite (take_S_r _ _ b).
  - rewrite take_insert_ge by lia. reflexivity.
  - apply list_lookup_insert_eq. lia.
Qed.

(** The log stays NUL-terminated at the cursor. *)
Lemma write_terminated b s :
  0 <= cursor s ->
  array_get (fakeBuffer s) (cursor s) = x00 ->
  array_get (fakeBuffer (snd (write b s))) (cursor (snd (write b s))) = x00.
Proof.
  intros H0 Ht.
  destruct (Z.lt_ge_cases (cursor s) (sizeof (fakeBuffer s) - 1)) as [Hr|Hf].
  - destruct (write_appends b s Hr) as [-> ->].
    apply array_get_set_eq. rewrite sizeof_array_set. lia.
  - destruct (write_drops b s Hf) as [-> ->]. exact Ht.
Qed.

Lemma write_all_cons b bs s :
  write_all (b :: bs) s
  = (fst (write b s) :: fst (write_all bs (snd (write b s))),
     snd (write_all bs (snd (write b s)))).
Proof.
  cbn [write_all]. destruct (write b s) as [r s1].
  cbn [fst snd]. destruct (write_all bs s1) as [rs s2]. reflexivity.
Qed.

(** A run of single-byte writes: each returns 1, the log takes the bytes
    for which there is room and the rest is dropped. *)
Lemma write_all_log bs : forall s,
  0 <= cursor s <= sizeof (fakeBuffer s) - 1 ->
  array_get (fakeBuffer s) (cursor s) = x00 ->
  fst (write_all bs s) = replicate (length bs) 1
  /\ cursor (snd (write_all bs s))
     = Z.min (cursor s + Z.of_nat (length bs)) (sizeof (fakeBuffer s) - 1)
  /\ logged (snd (write_all bs s))
     = logged s ++ take (Z.to_nat (sizeof (fakeBuffer s) - 1 - cursor s)) bs
  /\ sizeof (fakeBuffer (snd (write_all bs s))) = sizeof (fakeBuffer s)
  /\ array_get (fakeBuffer (snd (write_all bs s)))
               (cursor (snd (write_all bs s))) = x00.
Proof.
  induction bs as [|b bs IH]; intros s Hc Ht.
  - cbn [write_all fst snd length replicate].
    rewrite take_nil, app_nil_r. repeat split; try reflexivity; [lia|exact Ht].
  - rewrite write_all_cons. cbn [fst snd length replicate].
    pose proof (sizeof_write b s) as Hsz.
    pose proof (write_terminated b s (proj1 Hc) Ht) as Ht1.
    set (s1 := snd (write b s)) in *.
    replace (fst (write b s)) with 1 by reflexivity.
    destruct (Z.lt_ge_cases (cursor s) (sizeof (fakeBuffer s) - 1)) as [Hroom|Hfull].
    + destruct (write_appends b s Hroom) as [Hcur _]. fold s1 in Hcur.
      pose proof (logged_write_appends b s (conj (proj1 Hc) Hroom)) as Hlog.
      fold s1 in Hlog.
      destruct (IH s1) as (IH1 & IH2 & IH3 & IH4 & IH5); [lia|exact Ht1|].
      rewrite IH1, IH3, IH4, Hlog. rewrite IH2 in IH5 |- *. rewrite Hsz, Hcur in *.
      repeat split; try reflexivity; try lia.
      * rewrite <- app_assoc. f_equal. simpl.
        replace (Z.to_nat (sizeof (fakeBuffer s) - 1 - cursor s))
          with (S (Z.to_nat (sizeof (fakeBuffer s) - 1 - (cursor s + 1)))) by lia.
        reflexivity.
      * replace (Z.min (cursor s + Z.of_nat (S (length bs))) (sizeof (fakeBuffer s) - 1))
          with (Z.min (cursor s + 1 + Z.of_nat (length bs)) (sizeof (fakeBuffer s) - 1))
          by lia.
        exact IH5.
    + destruct (write_drops b s Hfull) as [Hcur Hfb]. fold s1 in Hcur, Hfb.
      assert (Hlog : logged s1 = logged s)
        by (unfold logged; rewrite Hcur, Hfb; reflexivity).
      destruct (IH s1) as (IH1 & IH2 & IH3 & IH4 & IH5); [lia|exact Ht1|].
      rewrite IH1, IH3, IH4, Hlog. rewrite IH2 in IH5 |- *. rewrite Hsz, Hcur in *.
      repeat split; try reflexivity; try lia.
      * replace (Z.to_nat (sizeof (fakeBuffer s) - 1 - cursor s)) with 0%nat by lia.
        reflexivity.
      * replace (Z.min (cursor s + Z.of_nat (S (length bs))) (sizeof (fakeBuffer s) - 1))
          with (Z.min (cursor s + Z.of_nat (length bs)) (sizeof (fakeBuffer s) - 1))
          by lia.
        exact IH5.
Qed.

End LogFacts.

(** ** Facts on the bounded reads *)

Section UntilFacts.
Context {Sock : Type} {sockets : SITL.Socket Sock}.
Implicit Types s : Stream Sock.


Lemma readBytesUntil_loop_S t n index buffer s :
  readBytesUntil_loop t (S n) index buffer s
  = if fst (read s) <? 0 then (index, buffer, snd (read s))
    else if fst (read s) =? t then (index, buffer, snd (read s))
    else readBytesUntil_loop t n (index + 1)
           (array_set buffer index (Z_to_byte (fst (read s)))) (snd (read s)).
Proof.
  cbn [readBytesUntil_loop]. destruct (read s) as [c s1]. reflexivity.
Qed.


Lemma advance_0 s : advance 0 s = s.
Proof.
  destruct s as [fb cu ib ic il so]. unfold advance. cbn.
  rewrite Z.add_0_r. reflexivity.
Qed.

Lemma advance_advance j k s : advance k (advance j s) = advance (j + k) s.
Proof. unfold advance. cbn. rewrite Z.add_assoc. reflexivity. Qed.

(** On a stream without a connected socket the loop takes from the pending
    bytes what [bytes_until] describes, and moves the cursor past what it
    consumed. *)
Lemma readBytesUntil_loop_on_pending t (n : nat) : forall (i : nat) buffer s,
  isSITLConnected s = false ->
  0 <= inputCursor s -> inputLength s <= sizeof (inputBuffer s) ->
  readBytesUntil_loop t n (Z.of_nat i) buffer s
  = (Z.of_nat (i + length (fst (bytes_until t n (pending s)))),
     list_inserts i (fst (bytes_until t n (pending s))) buffer,
     advance (Z.of_nat (snd (bytes_until t n (pending s)))) s).
Proof.
  induction n as [|n IH]; intros i buffer s Hc H0 Hl.
  - cbn [readBytesUntil_loop bytes_until fst snd length list_inserts].
    rewrite advance_0, Nat.add_0_r. reflexivity.
  - rewrite readBytesUntil_loop_S.
    destruct (Z.le_gt_cases (inputLength s) (inputCursor s)) as [Hempty|Hsome].
    + rewrite read_not_connected_empty by assumption.
      rewrite pending_empty by assumption.
      cbn [bytes_until fst snd length list_inserts Z.ltb Z.compare].
      rewrite advance_0, Nat.add_0_r. reflexivity.
    + rewrite read_not_connected_next by assumption.
      rewrite (pending_next s) by lia.
      set (b := array_get (inputBuffer s) (inputCursor s)).
      cbn [fst snd]. fold (advance 1 s).
      change (take (Z.to_nat (inputLength s - (inputCursor s + 1)))
                (drop (Z.to_nat (inputCursor s + 1)) (inputBuffer s)))
        with (pending (advance 1 s)).
      pose proof (byte_to_Z_range b) as Hb.
      destruct (Z.ltb_spec (byte_to_Z b) 0); [lia|].
      cbn [bytes_until].
      destruct (Z.eqb_spec (byte_to_Z b) t) as [Heq|Hne].
      * cbn [fst snd length list_inserts]. rewrite Nat.add_0_r. reflexivity.
      * replace (Z.of_nat i + 1) with (Z.of_nat (S i)) by lia.
        rewrite IH by (cbn; try assumption; lia).
        destruct (bytes_until t n (pending (advance 1 s))) as [copied used].
        cbn [fst snd length list_inserts].
        rewrite advance_advance, Z_to_byte_to_Z.
        f_equal; [f_equal|].
        -- lia.
        -- unfold array_set. rewrite decide_True by lia. rewrite Nat2Z.id.
           symmetry. apply list_insert_inserts_lt. lia.
        -- f_equal. lia.
Qed.


End UntilFacts.

(** ** Facts on the input invariant *)

Section InvariantFacts.
Context {Sock : Type} {sockets : SITL.Socket Sock}.
Implicit Types s : Stream Sock.

Lemma sizeof_poll s :
  sizeof (inputBuffer (pollSITLInput s)) = sizeof (inputBuffer s).
Proof.
  unfold pollSITLInput.
  destruct (sitlSocket s) as [sk|]; [|reflexivity].
  destruct (SITL.isConnected sk); [|reflexivity]. cbn [negb].
  destruct (_ <=? 0); [reflexivity|].
  destruct (SITL.read _ sk) as [[bytesRead tempBuffer] sk'].
  destruct (0 <? bytesRead); cbn [inputBuffer]; [|reflexivity].
  rewrite sizeof_array_set, sizeof_memcpy. reflexivity.
Qed.

Lemma poll_bounds s :
  read_within_request Sock -> input_bounds s -> input_bounds (pollSITLInput s).
Proof.
  intros Hreq (H0 & H1 & H2). unfold input_bounds.
  rewrite sizeof_poll. unfold pollSITLInput.
  destruct (sitlSocket s) as [sk|]; [|auto].
  destruct (SITL.isConnected sk); [|auto]. cbn [negb]. cbv zeta.
  set (ic := if inputLength s <=? inputCursor s then 0 else inputCursor s).
  set (il := if inputLength s <=? inputCursor s then 0 else inputLength s).
  assert (Hb : 0 <= ic /\ ic <= il /\ il <= sizeof (inputBuffer s))
    by (unfold ic, il; destruct (Z.leb_spec (inputLength s) (inputCursor s)); lia).
  clearbody ic il.
  destruct (Z.leb_spec (sizeof (inputBuffer s) - il) 0) as [Hfull|Hroom];
    [cbn [inputCursor inputLength]; lia|].
  set (request := if tempBuffer_size <? sizeof (inputBuffer s) - il
                  then tempBuffer_size else sizeof (inputBuffer s) - il).
  assert (Hrq : request <= sizeof (inputBuffer s) - il)
    by (unfold request; destruct (Z.ltb_spec tempBuffer_size (sizeof (inputBuffer s) - il)); lia).
  pose proof (Hreq request sk) as Hle.
  destruct (SITL.read request sk) as [[bytesRead tempBuffer] sk'].
  cbn [fst] in Hle.
  destruct (Z.ltb_spec 0 bytesRead); cbn [inputCursor inputLength]; lia.
Qed.

Lemma read_bounds s :
  read_within_request Sock -> input_bounds s -> input_bounds (snd (read s)).
Proof.
  intros Hreq Hb. pose proof (poll_bounds s Hreq Hb) as (H0 & H1 & H2).
  unfold read.
  destruct (Z.leb_spec (inputLength (pollSITLInput s)) (inputCursor (pollSITLInput s)));
    unfold input_bounds; cbn [snd inputCursor inputLength inputBuffer]; lia.
Qed.

Lemma sizeof_read s :
  sizeof (inputBuffer (snd (read s))) = sizeof (inputBuffer s).
Proof.
  unfold read.
  destruct (_ <=? _); cbn [snd inputBuffer]; apply sizeof_poll.
Qed.

(** Both loops only call [read()]: they keep what [read()] keeps. *)
Lemma readBytesUntil_loop_keeps (P : Stream Sock -> Prop) t :
  (forall s, P s -> P (snd (read s))) ->
  forall n index buffer s,
    P s -> P (snd (readBytesUntil_loop t n index buffer s)).
Proof.
  intros Hread n. induction n as [|n IH]; intros index buffer s Hs; [exact Hs|].
  rewrite readBytesUntil_loop_S.
  destruct (_ <? 0); [apply Hread, Hs|].
  destruct (_ =? t); [apply Hread, Hs|].
  apply IH, Hread, Hs.
Qed.

Lemma readBytes_loop_keeps (P : Stream Sock -> Prop) :
  (forall s, P s -> P (snd (read s))) ->
  forall n count buffer s,
    P s -> P (snd (readBytes_loop n count buffer s)).
Proof.
  intros Hread n. induction n as [|n IH]; intros count buffer s Hs; [exact Hs|].
  cbn [readBytes_loop]. pose proof (Hread s Hs) as Hnext.
  destruct (read s) as [c s1]. cbn [snd] in Hnext.
  destruct (c <? 0); [exact Hnext|]. apply IH, Hnext.
Qed.

Lemma after_keeps (P : Stream Sock -> Prop) c :
  (forall s, P s -> P (pollSITLInput s)) ->
  (forall s, P s -> P (snd (read s))) ->
  (forall data s, P s -> P (simulateInput data s)) ->
  (forall s, P s -> P (clearBuffer s)) ->
  forall s, P s -> P (after c s).
Proof.
  intros Hpoll Hread Hsim Hclear s Hs.
  destruct c as [| | |buffer len|t buffer len|data|]; cbn [after].
  - apply Hpoll, Hs.
  - apply Hread, Hs.
  - unfold peek. destruct (_ <=? _); apply Hpoll, Hs.
  - unfold readBytes. apply readBytes_loop_keeps; assumption.
  - unfold readBytesUntil. destruct (len <? 1); [exact Hs|].
    apply readBytesUntil_loop_keeps; assumption.
  - apply Hsim, Hs.
  - apply Hclear, Hs.
Qed.

Lemma simulateInput_invariant data s :
  1 <= sizeof (inputBuffer s) -> input_invariant s ->
  input_invariant (simulateInput data s).
Proof.
  intros Hsize Hinv. destruct data as [m|]; [|exact Hinv].
  unfold input_invariant, simulateInput. cbn [inputCursor inputLength inputBuffer].
  rewrite sizeof_array_set, sizeof_memcpy.
  unfold strlen. destruct (Z.leb_spec (sizeof (inputBuffer s)) (Z.of_nat (length (c_str m)))); lia.
Qed.

Lemma sizeof_simulateInput data s :
  sizeof (inputBuffer (simulateInput data s)) = sizeof (inputBuffer s).
Proof.
  destruct data as [m|]; [|reflexivity].
  cbn [simulateInput inputBuffer]. rewrite sizeof_array_set, sizeof_memcpy. reflexivity.
Qed.

Lemma clearBuffer_invariant s :
  1 <= sizeof (inputBuffer s) -> input_invariant (clearBuffer s).
Proof.
  intros Hsize. unfold input_invariant, clearBuffer.
  cbn [inputCursor inputLength inputBuffer]. rewrite sizeof_array_set. lia.
Qed.

(** Without a connected socket every public operation keeps the
    invariant [0 <= inputCursor <= inputLength <= capacity - 1]. *)
Lemma invariant_kept_unconnected (N : Z) c s :
  1 <= N ->
  sizeof (inputBuffer s) = N /\ isSITLConnected s = false /\ input_invariant s ->
  let s' := after c s in
  sizeof (inputBuffer s') = N /\ isSITLConnected s' = false /\ input_invariant s'.
Proof.
  intros HN. cbn zeta. revert s.
  apply (after_keeps
           (fun s => sizeof (inputBuffer s) = N /\ isSITLConnected s = false
                     /\ input_invariant s)).
  - intros s (Hs & Hc & Hi). rewrite (poll_not_connected s Hc). auto.
  - intros s (Hs & Hc & Hi). unfold read. rewrite (poll_not_connected s Hc).
    destruct (Z.leb_spec (inputLength s) (inputCursor s)); [auto|].
    unfold input_invariant in *. cbn [snd inputBuffer inputCursor inputLength].
    repeat split; try lia; exact Hc.
  - intros data s (Hs & Hc & Hi).
    rewrite sizeof_simulateInput, simulateInput_connection.
    split; [exact Hs|]. split; [exact Hc|].
    apply simulateInput_invariant; [lia|exact Hi].
  - intros s (Hs & Hc & Hi).
    split; [cbn [clearBuffer inputBuffer]; rewrite sizeof_array_set; exact Hs|].
    split; [exact Hc|]. apply clearBuffer_invariant. lia.
Qed.

(** With any socket that returns no more than requested, every public
    operation keeps [0 <= inputCursor <= inputLength <= capacity]. *)
Lemma bounds_kept (N : Z) c s :
  read_within_request Sock -> 1 <= N ->
  sizeof (inputBuffer s) = N /\ input_bounds s ->
  let s' := after c s in
  sizeof (inputBuffer s') = N /\ input_bounds s'.
Proof.
  intros Hreq HN. cbn zeta. revert s.
  apply (after_keeps (fun s => sizeof (inputBuffer s) = N /\ input_bounds s)).
  - intros s (Hs & Hb). rewrite sizeof_poll. split; [exact Hs|].
    apply poll_bounds; assumption.
  - intros s (Hs & Hb). rewrite sizeof_read. split; [exact Hs|].
    apply read_bounds; assumption.
  - intros data s (Hs & Hb). rewrite sizeof_simulateInput. split; [exact Hs|].
    destruct data as [m|]; [|exact Hb].
    unfold input_bounds, simulateInput. cbn [inputCursor inputLength inputBuffer].
    rewrite sizeof_array_set, sizeof_memcpy. unfold strlen.
    destruct (Z.leb_spec (sizeof (inputBuffer s)) (Z.of_nat (length (c_str m)))); lia.
  - intros s (Hs & Hb). unfold input_bounds, clearBuffer.
    cbn [inputCursor inputLength inputBuffer]. rewrite sizeof_array_set. lia.
Qed.

(** One refill in which the socket returns all it was asked for. When no
    more than [sizeof(tempBuffer)] slots were free, the length lands on
    the capacity and the terminator is stored one past the array. *)
Lemma poll_fills_to_capacity s sk :
  sitlSocket s = Some sk -> SITL.isConnected sk = true ->
  input_invariant s ->
  let il := if inputLength s <=? inputCursor s then 0 else inputLength s in
  let room := sizeof (inputBuffer s) - il in
  room <= tempBuffer_size ->
  fst (fst (SITL.read room sk)) = room ->
  inputLength (pollSITLInput s) = sizeof (inputBuffer (pollSITLInput s))
  /\ ~ input_invariant (pollSITLInput s).
Proof.
  intros Hsk Hconn (H0 & H1 & H2) il room Hroom Hfull.
  assert (Hlen : inputLength (pollSITLInput s) = sizeof (inputBuffer s)).
  { unfold pollSITLInput. rewrite Hsk, Hconn. cbn [negb].
    fold il. fold room.
    assert (Hpos : 0 < room)
      by (unfold room, il; destruct (inputLength s <=? inputCursor s); lia).
    destruct (Z.leb_spec room 0); [lia|].
    destruct (Z.ltb_spec tempBuffer_size room); [lia|].
    destruct (SITL.read room sk) as [[bytesRead tempBuffer] sk'].
    cbn [fst] in Hfull. subst bytesRead.
    destruct (Z.ltb_spec 0 room); [|lia].
    cbn [inputLength]. unfold room. lia. }
  rewrite sizeof_poll. split; [exact Hlen|].
  unfold input_invariant. rewrite sizeof_poll, Hlen. lia.
Qed.

End InvariantFacts.

(** ** Facts on [readBytes] *)

Section ReadBytesFacts.
Context {Sock : Type} {sockets : SITL.Socket Sock}.
Implicit Types s : Stream Sock.

Lemma readBytes_loop_S n count buffer s :
  readBytes_loop (S n) count buffer s
  = if fst (read s) <? 0 then (count, buffer, snd (read s))
    else readBytes_loop n (count + 1)
           (array_set buffer count (Z_to_byte (fst (read s)))) (snd (read s)).
Proof.
  cbn [readBytes_loop]. destruct (read s) as [c s1]. reflexivity.
Qed.

(** A terminator that no [read()] can return never ends the loop. *)
Lemma readBytesUntil_loop_no_match t (n : nat) : forall index buffer s,
  t < 0 \/ 255 < t ->
  readBytesUntil_loop t n index buffer s = readBytes_loop n index buffer s.
Proof.
  induction n as [|n IH]; intros index buffer s Ht; [reflexivity|].
  rewrite readBytesUntil_loop_S, readBytes_loop_S.
  pose proof (read_range s) as Hrange.
  destruct (Z.ltb_spec (fst (read s)) 0); [reflexivity|].
  destruct (Z.eqb_spec (fst (read s)) t); [lia|].
  apply IH. exact Ht.
Qed.

(** [bytes_until] with a terminator that is no byte takes the first [n]
    bytes. *)
Lemma bytes_until_no_match t (n : nat) : forall input,
  t < 0 \/ 255 < t ->
  bytes_until t n input = (take n input, length (take n input)).
Proof.
  induction n as [|n IH]; intros input Ht; [destruct input; reflexivity|].
  destruct input as [|b rest]; [reflexivity|].
  cbn [bytes_until take length].
  pose proof (byte_to_Z_range b) as Hb.
  destruct (Z.eqb_spec (byte_to_Z b) t); [lia|].
  rewrite IH by exact Ht. reflexivity.
Qed.

End ReadBytesFacts.

(** ** Injected input *)

(** C1 (as amended). On a stream without a connected socket, for every
    string whose length is at most the capacity of the input buffer minus
    one, [simulateInput] followed by repeated [read()] returns the bytes of
    the string in order, one per call, and [-1] on every call after the last
    byte. The string is [c_str m], the bytes before the first NUL at the
    pointer; a list without NUL is its own string ([c_str_id]). *)
Theorem simulateInput_then_read_reproduces :
  forall (Sock : Type) (sockets : SITL.Socket Sock)
         (st : Stream Sock) (m : list byte) (n : nat),
    isSITLConnected st = false ->
    strlen m <= sizeof (inputBuffer st) - 1 ->
    fst (read_n (length (c_str m) + n) (simulateInput (Some m) st))
    = map byte_to_Z (c_str m) ++ replicate n (-1).
Proof.
  intros Sock sockets st m n Hc Hfit.
  pose proof (simulateInput_length m st) as Hlen.
  destruct (Z.leb_spec (sizeof (inputBuffer st)) (strlen m)) as [Hle|Hlt]; [lia|].
  rewrite read_n_drains.
  - cbn [fst]. rewrite simulateInput_pending by exact Hfit. reflexivity.
  - rewrite simulateInput_connection. exact Hc.
  - simpl. lia.
  - rewrite Hlen. simpl. rewrite sizeof_array_set, sizeof_memcpy. lia.
  - rewrite Hlen. simpl. unfold strlen. lia.
Qed.

Lemma simulateInput_then_read_reproduces_witness :
  let sockets := simulator_up in
  fst (read_n (length (c_str [x61; x62; x63]) + 2)
         (simulateInput (Some [x61; x62; x63]) (newStream 4 4)))
  = map byte_to_Z (c_str [x61; x62; x63]) ++ replicate 2 (-1).
Proof.
  apply (simulateInput_then_read_reproduces TestSocket.t simulator_up
           (newStream 4 4) [x61; x62; x63] 2).
  - reflexivity.
  - vm_compute. discriminate.
Defined.

(** C1 fails as stated, in two ways. A string as long as the buffer (four
    bytes for a buffer of four) loses its last byte: the reads return three
    bytes and then [-1]. And on a stream connected to a simulator that has
    sent "hello", the read that follows the last injected byte returns a
    byte of the socket instead of [-1]. *)
Lemma simulateInput_full_length_is_cut :
  let sockets := simulator_up in
  let st : Stream TestSocket.t := newStream 4 4 in
  let s := [x61; x62; x63; x64] in
  let online := snd (connectSITL localhost 5760 st) in
  strlen s <= sizeof (inputBuffer st)
  /\ fst (read_n 5 (simulateInput (Some s) st)) = [97; 98; 99; -1; -1]
  /\ fst (read_n 5 (simulateInput (Some s) st)) <> map byte_to_Z s ++ [-1]
  /\ isSITLConnected online = true
  /\ fst (read_n 3 (simulateInput (Some [x61; x62]) online)) = [97; 98; 104].
Proof.
  vm_compute. repeat split; try reflexivity; discriminate.
Qed.

(** C10. [simulateInput] with a null pointer returns the stream unchanged:
    buffers, cursors, length, log and socket. *)
Theorem simulateInput_null_is_noop :
  forall (Sock : Type) (sockets : SITL.Socket Sock) (st : Stream Sock),
    simulateInput None st = st.
Proof. intros Sock sockets st. reflexivity. Qed.

(** ** Writes and the output log *)

(** C3 (as amended). [write(byte)] returns 1 in every stream state, whether
    the byte was appended to the log (there was room before the last slot)
    or dropped (the log was at capacity); since the socket type and the
    socket state are arbitrary here, what the socket sends has no part in
    the returned value. *)
Theorem write_returns_one :
  forall (Sock : Type) (sockets : SITL.Socket Sock) (b : byte) (st : Stream Sock),
    fst (write b st) = 1
    /\ (0 <= cursor st < sizeof (fakeBuffer st) - 1 ->
        logged (snd (write b st)) = logged st ++ [b])
    /\ (sizeof (fakeBuffer st) - 1 <= cursor st ->
        cursor (snd (write b st)) = cursor st
        /\ fakeBuffer (snd (write b st)) = fakeBuffer st).
Proof.
  intros Sock sockets b st. split; [reflexivity|]. split.
  - apply logged_write_appends.
  - apply write_drops.
Qed.

(** C3 fails as stated: on a log at capacity (three bytes in a log of four
    slots) a further [write] leaves the log as it is, the byte is dropped,
    and the call still returns 1, not 0. *)
Lemma write_on_full_log_returns_one :
  let sockets := port_closed in
  let st : Stream TestSocket.t :=
    snd (write_all [x61; x62; x63] (newStream 4 4)) in
  cursor st = sizeof (fakeBuffer st) - 1
  /\ fakeBuffer (snd (write x64 st)) = fakeBuffer st
  /\ cursor (snd (write x64 st)) = cursor st
  /\ fst (write x64 st) = 1
  /\ fst (write x64 st) <> 0.
Proof.
  vm_compute. repeat split; try reflexivity; discriminate.
Qed.

(** C4. Writing [C + 5] single bytes to a stream whose log has [C] slots and
    is empty leaves the first [C - 1] of them in the log, followed by the
    terminator in the last slot; the other six are dropped, and every call
    returns 1 as for a byte that was kept. *)
Theorem write_past_capacity_keeps_all_but_one_slot :
  forall (Sock : Type) (sockets : SITL.Socket Sock)
         (st : Stream Sock) (bs : list byte),
    let C := sizeof (fakeBuffer st) in
    1 <= C ->
    cursor st = 0 ->
    array_get (fakeBuffer st) 0 = x00 ->
    Z.of_nat (length bs) = C + 5 ->
    let st' := snd (write_all bs st) in
    cursor st' = C - 1
    /\ logged st' = take (Z.to_nat (C - 1)) bs
    /\ Z.of_nat (length (logged st')) = C - 1
    /\ array_get (fakeBuffer st') (C - 1) = x00
    /\ sizeof (fakeBuffer st') = C
    /\ fst (write_all bs st) = replicate (length bs) 1.
Proof.
  intros Sock sockets st bs C HC Hcur Hterm Hlen st'.
  destruct (write_all_log bs st) as (H1 & H2 & H3 & H4 & H5).
  { fold C. lia. }
  { rewrite Hcur. exact Hterm. }
  fold st' in H2, H3, H4, H5. fold C in H2, H3, H4.
  assert (Hc' : cursor st' = C - 1) by lia.
  assert (Hlog : logged st' = take (Z.to_nat (C - 1)) bs).
  { rewrite H3, Hcur. unfold logged. rewrite Hcur. simpl.
    rewrite Z.sub_0_r. reflexivity. }
  repeat split.
  - exact Hc'.
  - exact Hlog.
  - rewrite Hlog, length_take. lia.
  - rewrite <- Hc'. exact H5.
  - exact H4.
  - exact H1.
Qed.

Lemma write_past_capacity_keeps_all_but_one_slot_witness :
  let sockets := port_closed in
  let st : Stream TestSocket.t := newStream 4 4 in
  let bs := [x61; x62; x63; x64; x65; x66; x67; x68; x69] in
  let st' := snd (write_all bs st) in
  cursor st' = 3
  /\ logged st' = [x61; x62; x63]
  /\ Z.of_nat (length (logged st')) = 3
  /\ array_get (fakeBuffer st') 3 = x00
  /\ sizeof (fakeBuffer st') = 4
  /\ fst (write_all bs st) = replicate 9 1.
Proof.
  exact (write_past_capacity_keeps_all_but_one_slot TestSocket.t port_closed
           (newStream 4 4) [x61; x62; x63; x64; x65; x66; x67; x68; x69]
           ltac:(vm_compute; discriminate) eq_refl eq_refl eq_refl).
Defined.

(** ** Connection failures *)

(** C8. When the connect attempt of the socket fails, [connectSITL]
    returns [false] (it is a total function: there is no other outcome),
    [isSITLConnected()] is then [false], and a [write] that follows returns 1
    and changes nothing but the log: the socket and the input side are as
    before, and the byte is appended when the log has room. The attempt is
    the [connect(host, port)] call that [connectSITL] makes, on the socket
    it owns (disconnected first if it was connected) or on a new one. That a
    socket whose connect failed reports itself disconnected is the socket's
    part of the contract, stated as the first hypothesis. *)
Theorem failed_connect_leaves_writes_local :
  forall (Sock : Type) (sockets : SITL.Socket Sock)
         (host : list byte) (port : Z) (b : byte) (st : Stream Sock),
    (forall h p k, fst (SITL.connect h p k) = false ->
                   SITL.isConnected (snd (SITL.connect h p k)) = false) ->
    let owned := match sitlSocket st with Some k => k | None => SITL.create end in
    let ready := if SITL.isConnected owned then SITL.disconnect owned else owned in
    fst (SITL.connect host port ready) = false ->
    let st1 := snd (connectSITL host port st) in
    let st2 := snd (write b st1) in
    fst (connectSITL host port st) = false
    /\ sitlSocket st1 = Some (snd (SITL.connect host port ready))
    /\ isSITLConnected st1 = false
    /\ fakeBuffer st1 = fakeBuffer st /\ cursor st1 = cursor st
    /\ fst (write b st1) = 1
    /\ sitlSocket st2 = sitlSocket st1
    /\ inputBuffer st2 = inputBuffer st
    /\ inputCursor st2 = inputCursor st
    /\ inputLength st2 = inputLength st
    /\ (0 <= cursor st < sizeof (fakeBuffer st) - 1 ->
        logged st2 = logged st ++ [b])
    /\ (sizeof (fakeBuffer st) - 1 <= cursor st ->
        fakeBuffer st2 = fakeBuffer st /\ cursor st2 = cursor st).
Proof.
  intros Sock sockets host port b st Hlaw owned ready Hfail st1 st2.
  assert (Hconn : connectSITL host port st
                  = (false,
                     {| fakeBuffer := fakeBuffer st; cursor := cursor st;
                        inputBuffer := inputBuffer st;
                        inputCursor := inputCursor st;
                        inputLength := inputLength st;
                        sitlSocket := Some (snd (SITL.connect host port ready)) |})).
  { unfold connectSITL. fold owned. fold ready.
    destruct (SITL.connect host port ready) as [ok sk2]. cbn in Hfail.
    subst ok. reflexivity. }
  assert (Hnc : isSITLConnected st1 = false).
  { unfold st1. rewrite Hconn. cbn. apply Hlaw. exact Hfail. }
  assert (Hsame : sitlSocket st1 = Some (snd (SITL.connect host port ready))
                  /\ fakeBuffer st1 = fakeBuffer st /\ cursor st1 = cursor st
                  /\ inputBuffer st1 = inputBuffer st
                  /\ inputCursor st1 = inputCursor st
                  /\ inputLength st1 = inputLength st).
  { unfold st1. rewrite Hconn. cbn. auto 10. }
  destruct Hsame as (Hso & Hfb & Hcu & Hib & Hic & Hil).
  destruct (write_not_connected b st1 Hnc) as (Hs & Hb & Hc & Hl).
  fold st2 in Hs, Hb, Hc, Hl.
  split; [rewrite Hconn; reflexivity|].
  split; [exact Hso|]. split; [exact Hnc|].
  split; [exact Hfb|]. split; [exact Hcu|]. split; [reflexivity|].
  split; [exact Hs|]. split; [congruence|]. split; [congruence|].
  split; [congruence|]. split.
  - intros Hroom. unfold st2.
    rewrite logged_write_appends by (rewrite Hfb, Hcu; exact Hroom).
    unfold logged. rewrite Hfb, Hcu. reflexivity.
  - intros Hfull. unfold st2.
    destruct (write_drops b st1) as (Hc2 & Hf2); [rewrite Hfb, Hcu; exact Hfull|].
    split; congruence.
Qed.

Lemma failed_connect_leaves_writes_local_witness :
  let sockets := port_closed in
  let st : Stream TestSocket.t := newStream 4 4 in
  let st1 := snd (connectSITL localhost 5760 st) in
  let st2 := snd (write x61 st1) in
  fst (connectSITL localhost 5760 st) = false
  /\ sitlSocket st1
     = Some (snd (SITL.connect localhost 5760 (TestSocket.create false [])))
  /\ isSITLConnected st1 = false
  /\ fakeBuffer st1 = fakeBuffer st /\ cursor st1 = cursor st
  /\ fst (write x61 st1) = 1
  /\ sitlSocket st2 = sitlSocket st1
  /\ inputBuffer st2 = inputBuffer st
  /\ inputCursor st2 = inputCursor st
  /\ inputLength st2 = inputLength st
  /\ (0 <= cursor st < sizeof (fakeBuffer st) - 1 ->
      logged st2 = logged st ++ [x61])
  /\ (sizeof (fakeBuffer st) - 1 <= cursor st ->
      fakeBuffer st2 = fakeBuffer st /\ cursor st2 = cursor st).
Proof.
  apply (failed_connect_leaves_writes_local TestSocket.t port_closed
           localhost 5760 x61 (newStream 4 4)).
  - intros h p k Hf. simpl in *. exact Hf.
  - reflexivity.
Defined.

(** ** Clearing the buffers *)



(** ** Reading up to a terminator *)






(** A terminator value outside [0, 255] (a byte above 127 passed through a
    signed [char]) equals no value [read()] returns: the loop then stops
    only on the bound or on exhausted input. *)
Remark readBytesUntil_negative_terminator :
  forall (Sock : Type) (sockets : SITL.Socket Sock)
         (terminator : Z) (n : nat) (index : Z) (buffer : list byte) (st : Stream Sock),
    terminator < -1 \/ 255 < terminator ->
    readBytesUntil_loop terminator n index buffer st
    = readBytes_loop n index buffer st.
Proof.
  intros Sock sockets terminator n. induction n as [|n IH]; intros index buffer st Ht.
  - reflexivity.
  - cbn [readBytesUntil_loop readBytes_loop].
    pose proof (read_range st) as Hrange.
    destruct (read st) as [c s1]. cbn [fst] in Hrange.
    destruct (c <? 0); [reflexivity|].
    destruct (Z.eqb_spec c terminator) as [Heq|Hne]; [lia|].
    apply IH. exact Ht.
Qed.

Example readBytesUntil_line :
  let sockets := port_closed in
  let st : Stream TestSocket.t :=
    simulateInput (Some [x61; x62; x0a; x63; x64]) (newStream 8 8) in
  let result := readBytesUntil 10 (replicate 4 x2e) 4 st in
  fst (fst result) = 2
  /\ snd (fst result) = [x61; x62; x2e; x2e]
  /\ inputCursor (snd result) = 3
  /\ fst (read (snd result)) = 99.
Proof. vm_compute. repeat split; reflexivity. Qed.

Example readBytesUntil_bound :
  let sockets := port_closed in
  let st : Stream TestSocket.t :=
    simulateInput (Some [x61; x62; x0a; x63; x64]) (newStream 8 8) in
  let result := readBytesUntil 10 (replicate 4 x2e) 2 st in
  fst (fst result) = 2
  /\ snd (fst result) = [x61; x62; x2e; x2e]
  /\ inputCursor (snd result) = 2
  /\ fst (read (snd result)) = 10.
Proof. vm_compute. repeat split; reflexivity. Qed.

(** ** The input invariant under refill *)

(** C2 does not hold of the code. The refill step computes the free room as
    [sizeof(inputBuffer) - inputLength], without keeping the slot of the
    terminator that [simulateInput] reserves: when the socket delivers as
    many bytes as there is room, [available()] leaves
    [inputLength = capacity], above the bound [capacity - 1] of the
    invariant, and the terminator is stored one past the end of the array.
    (Without a connected socket the invariant is kept:
    [invariant_kept_unconnected]; with one, only the bound [capacity] is:
    [bounds_kept].) *)
Theorem available_refill_breaks_input_invariant :
  forall (Sock : Type) (sockets : SITL.Socket Sock) (st : Stream Sock) (sk : Sock),
    sitlSocket st = Some sk ->
    SITL.isConnected sk = true ->
    input_invariant st ->
    let il := if inputLength st <=? inputCursor st then 0 else inputLength st in
    let room := sizeof (inputBuffer st) - il in
    room <= tempBuffer_size ->
    fst (fst (SITL.read room sk)) = room ->
    let st' := snd (available st) in
    inputLength st' = sizeof (inputBuffer st')
    /\ ~ input_invariant st'.
Proof.
  intros Sock sockets st sk Hsk Hconn Hinv il room Hroom Hfull st'.
  unfold st', available. cbn [snd].
  exact (poll_fills_to_capacity st sk Hsk Hconn Hinv Hroom Hfull).
Qed.

Lemma available_refill_breaks_input_invariant_witness :
  let sockets := simulator_up in
  let st : Stream TestSocket.t := snd (connectSITL localhost 5760 (newStream 4 4)) in
  let st' := snd (available st) in
  inputLength st' = sizeof (inputBuffer st')
  /\ ~ input_invariant st'.
Proof.
  apply (available_refill_breaks_input_invariant TestSocket.t simulator_up
           (snd (connectSITL (sockets := simulator_up) localhost 5760 (newStream 4 4)))
           {| TestSocket.connected := true; TestSocket.accepting := true;
              TestSocket.incoming := [x68; x65; x6c; x6c; x6f];
              TestSocket.outgoing := [] |}).
  - reflexivity.
  - reflexivity.
  - vm_compute. repeat split; discriminate.
  - vm_compute. discriminate.
  - reflexivity.
Defined.

(** The values at that input: a buffer of four slots ends with
    [inputLength = 4]. *)
Example available_refill_values :
  let sockets := simulator_up in
  let st : Stream TestSocket.t := snd (connectSITL localhost 5760 (newStream 4 4)) in
  input_invariant st
  /\ fst (available st) = true
  /\ inputLength (snd (available st)) = 4
  /\ sizeof (inputBuffer (snd (available st))) = 4
  /\ inputBuffer (snd (available st)) = [x68; x65; x6c; x6c].
Proof.
  vm_compute. repeat split; try reflexivity; discriminate.
Qed.

(** The same after an injection of [capacity - 1] bytes: the first
    [read()] appends one socket byte in the slot of the terminator. *)
Example refill_after_injection_values :
  let sockets := simulator_up in
  let st : Stream TestSocket.t :=
    simulateInput (Some [x61; x62; x63])
      (snd (connectSITL localhost 5760 (newStream 4 4))) in
  input_invariant st
  /\ inputLength (snd (read st)) = 4
  /\ sizeof (inputBuffer (snd (read st))) = 4
  /\ inputBuffer (snd (read st)) = [x61; x62; x63; x68].
Proof.
  vm_compute. repeat split; try reflexivity; discriminate.
Qed.

(** ** More on the clock *)

Section ClockHistory.
Import Clock.

Lemma run_cons k ks c :
  snd (run (k :: ks) c) = snd (run ks (snd (step k c))).
Proof.
  cbn [run]. destruct (step k c) as [r c1]. cbn [snd].
  destruct (run ks c1) as [rs c2]. reflexivity.
Qed.

Lemma run_snoc ks k : forall c,
  snd (run (ks ++ [k]) c) = snd (step k (snd (run ks c))).
Proof.
  induction ks as [|k0 ks IH]; intros c.
  - cbn [app]. rewrite run_cons. reflexivity.
  - cbn [app]. rewrite !run_cons. apply IH.
Qed.

(** The clock after a history that began at process start: the two start
    points are the initial ones, and the override is the latest one set. *)
Lemma run_state e0 u0 history :
  snd (run history (init e0 u0))
  = {| start := u64 e0; startMicros := u64 u0;
       fakeMillis := default 0 (last_override (reverse history));
       useFakeMillis := bool_decide (is_Some (last_override (reverse history))) |}.
Proof.
  induction history as [|k history IH] using rev_ind; [reflexivity|].
  rewrite run_snoc, reverse_snoc, IH.
  destruct k as [t|t|ms|]; cbn [step snd last_override]; reflexivity.
Qed.

End ClockHistory.

(** X1. After any history of clock calls since process start, [millis()]
    and [micros()] depend only on the latest override call: if it is a
    [setMillis(ms)] they return [ms] and [ms * 1000] (as [uint64_t]),
    otherwise (never overridden, or [resetMillis()] came last) they return
    the system clock minus the start points captured at process start, for
    [micros()] as for [millis()]. *)
Theorem clock_follows_latest_override :
  forall (epoch_ms0 epoch_us0 : Z) (history : list Clock.call) (t : Z),
    let c := snd (Clock.run history (Clock.init epoch_ms0 epoch_us0)) in
    match last_override (reverse history) with
    | Some ms =>
        Clock.millis t c = ms /\ Clock.micros t c = Clock.u64 (ms * 1000)
    | None =>
        Clock.millis t c = Clock.u64 (t - Clock.u64 epoch_ms0)
        /\ Clock.micros t c = Clock.u64 (t - Clock.u64 epoch_us0)
    end.
Proof.
  intros e0 u0 history t c. unfold c. rewrite run_state.
  unfold Clock.millis, Clock.micros.
  destruct (last_override (reverse history)) as [ms|]; cbn; split; reflexivity.
Qed.

(** X2. Without an override, [millis()] measures the system clock from the
    start point: it returns [t - start] while the clock is at or after the
    start point and less than [2^64] ms past it, so that two readings differ
    by the time between them. The system clock is not monotonic: read
    before the start point (a clock set back), [millis()] wraps around and
    returns [2^64 - (start - t)]. *)
Theorem millis_measures_from_start :
  forall (epoch_ms0 epoch_us0 t1 t2 : Z),
    0 <= epoch_ms0 < 2 ^ 64 ->
    let c := Clock.init epoch_ms0 epoch_us0 in
    (epoch_ms0 <= t1 -> t1 <= t2 -> t2 - epoch_ms0 < 2 ^ 64 ->
     Clock.millis t1 c = t1 - epoch_ms0
     /\ Clock.millis t2 c - Clock.millis t1 c = t2 - t1)
    /\ (t1 < epoch_ms0 -> epoch_ms0 - t1 <= 2 ^ 64 ->
        Clock.millis t1 c = 2 ^ 64 - (epoch_ms0 - t1)).
Proof.
  intros e0 u0 t1 t2 He0 c. unfold c, Clock.millis. cbn.
  rewrite (u64_small e0 He0). split.
  - intros H1 H2 H3. rewrite !u64_small by lia. lia.
  - intros H1 H2. unfold Clock.u64.
    replace (t1 - e0) with ((2 ^ 64 - (e0 - t1)) + (-1) * 2 ^ 64) by lia.
    rewrite Z.mod_add by lia. apply Z.mod_small. lia.
Qed.

Lemma millis_measures_from_start_witness :
  let c := Clock.init 1700000000000 1700000000000000 in
  (1700000000000 <= 1700000000250 -> 1700000000250 <= 1700000001000 ->
   1700000001000 - 1700000000000 < 2 ^ 64 ->
   Clock.millis 1700000000250 c = 1700000000250 - 1700000000000
   /\ Clock.millis 1700000001000 c - Clock.millis 1700000000250 c
      = 1700000001000 - 1700000000250)
  /\ (1700000000250 < 1700000000000 -> 1700000000000 - 1700000000250 <= 2 ^ 64 ->
      Clock.millis 1700000000250 c = 2 ^ 64 - (1700000000000 - 1700000000250)).
Proof.
  exact (millis_measures_from_start 1700000000000 1700000000000000
           1700000000250 1700000001000 ltac:(lia)).
Defined.

(** ** Mocked analog pins *)

Lemma analog_run_snoc ks k m :
  Analog.run (ks ++ [k]) m = Analog.step k (Analog.run ks m).
Proof. unfold Analog.run. rewrite foldl_app. reflexivity. Qed.

(** X3. Starting from the empty map the process begins with, after any
    sequence of [setMockAnalogRead] and [clearMockAnalogReads] calls
    [analogRead(pin)] returns the value of the latest set on that pin, and
    512 when the pin was never set or a clear came after its latest set;
    sets on other pins do not matter. *)
Theorem analogRead_returns_latest_mock :
  forall (calls : list Analog.call) (pin : Z),
    Analog.analogRead pin (Analog.run calls ∅)
    = Analog.latest pin (reverse calls).
Proof.
  intros calls pin. induction calls as [|k calls IH] using rev_ind.
  - reflexivity.
  - rewrite analog_run_snoc, reverse_snoc.
    destruct k as [p value|]; cbn [Analog.step Analog.latest].
    + unfold Analog.analogRead, Analog.setMockAnalogRead in *.
      destruct (Z.eqb_spec p pin) as [->|Hne].
      * rewrite lookup_insert_eq. reflexivity.
      * rewrite lookup_insert_ne by exact Hne. exact IH.
    + unfold Analog.analogRead, Analog.clearMockAnalogReads.
      rewrite lookup_empty. reflexivity.
Qed.

(** ** Busy waits *)

Lemma to_long_long_small us : 0 <= us < 2 ^ 63 -> Delay.to_long_long us = us.
Proof.
  intros Hus. unfold Delay.to_long_long.
  destruct (Z.ltb_spec us (2 ^ 63)); [reflexivity|lia].
Qed.

(** The loop leaves at the first evaluation that finds the threshold
    reached, given the fuel to get there. *)
Lemma spin_loop_first_reached elapsed us (k : nat) : forall (fuel i : nat),
  (i <= k)%nat -> (k - i < fuel)%nat ->
  (forall j, (i <= j < k)%nat -> elapsed j < Delay.to_long_long us) ->
  Delay.to_long_long us <= elapsed k ->
  Delay.spin_loop fuel elapsed i us = Some (S k).
Proof.
  induction fuel as [|fuel IH]; intros i Hik Hfuel Hbefore Hat; [lia|].
  cbn [Delay.spin_loop].
  destruct (Z.ltb_spec (elapsed i) (Delay.to_long_long us)) as [Hlt|Hge].
  - assert (i <> k) by (intros ->; lia).
    apply IH; try lia. intros j Hj. apply Hbefore. lia.
  - destruct (Nat.eq_dec i k) as [->|Hne]; [reflexivity|].
    specialize (Hbefore i). lia.
Qed.

(** X4. [delay(int ms)] returns at once, without looking at the clock, when
    [ms <= 0]. For a positive [ms] it keeps evaluating the loop condition
    and returns at the first evaluation at which at least [ms * 1000]
    microseconds have elapsed: [k] evaluations that found less are followed
    by the one that ends the wait. *)
Theorem delay_waits_until_elapsed :
  forall (fuel : nat) (elapsed : nat -> Z) (ms : Z),
    (ms <= 0 -> Delay.delay fuel elapsed ms = Some 0%nat)
    /\ (forall k : nat,
          0 < ms < 2 ^ 31 ->
          (forall j, (j < k)%nat -> elapsed j < ms * 1000) ->
          ms * 1000 <= elapsed k ->
          (k < fuel)%nat ->
          Delay.delay fuel elapsed ms = Some (S k)).
Proof.
  intros fuel elapsed ms. split.
  - intros Hms. unfold Delay.delay.
    destruct (Z.leb_spec ms 0); [reflexivity|lia].
  - intros k Hms Hbefore Hat Hfuel. unfold Delay.delay, Delay.spin_wait_us.
    destruct (Z.leb_spec ms 0); [lia|].
    assert (Hus : Clock.u64 (Clock.u64 ms * 1000) = ms * 1000)
      by (rewrite (u64_small ms) by lia; apply u64_small; lia).
    rewrite Hus.
    apply spin_loop_first_reached; rewrite ?to_long_long_small by lia; try lia.
    intros j Hj. apply Hbefore. lia.
Qed.

(** X5. [delayMicroseconds(us)] and [delay(unsigned long ms)] wait the same
    way, for [us] and for [ms * 1000] microseconds, as long as that number
    is below [2^63]. The threshold is compared as a [long long]: when
    [ms * 1000] (as [uint64_t]) is [2^63] or more the threshold is negative
    and [delay] returns at the first evaluation, whatever time has
    elapsed. *)
Theorem unsigned_delays_wait_until_elapsed :
  forall (fuel : nat) (elapsed : nat -> Z) (n : Z),
    (forall k : nat,
       0 <= n < 2 ^ 32 ->
       (forall j, (j < k)%nat -> elapsed j < n) ->
       n <= elapsed k -> (k < fuel)%nat ->
       Delay.delayMicroseconds fuel elapsed n = Some (S k))
    /\ (forall k : nat,
          0 <= n -> n * 1000 < 2 ^ 63 ->
          (forall j, (j < k)%nat -> elapsed j < n * 1000) ->
          n * 1000 <= elapsed k -> (k < fuel)%nat ->
          Delay.delay_unsigned fuel elapsed n = Some (S k))
    /\ (0 <= n -> 2 ^ 63 <= n * 1000 < 2 ^ 64 ->
        0 <= elapsed 0%nat -> (0 < fuel)%nat ->
        Delay.delay_unsigned fuel elapsed n = Some 1%nat).
Proof.
  intros fuel elapsed n. split; [|split].
  - intros k Hn Hbefore Hat Hfuel. unfold Delay.delayMicroseconds, Delay.spin_wait_us.
    rewrite u64_small by lia.
    apply spin_loop_first_reached; rewrite ?to_long_long_small by lia; try lia.
    intros j Hj. apply Hbefore. lia.
  - intros k Hn Hfit Hbefore Hat Hfuel. unfold Delay.delay_unsigned, Delay.spin_wait_us.
    rewrite (u64_small n) by lia. rewrite u64_small by lia.
    apply spin_loop_first_reached; rewrite ?to_long_long_small by lia; try lia.
    intros j Hj. apply Hbefore. lia.
  - intros Hn Hbig H0 Hfuel. unfold Delay.delay_unsigned, Delay.spin_wait_us.
    rewrite (u64_small n) by lia. rewrite u64_small by lia.
    destruct fuel as [|fuel]; [lia|]. cbn [Delay.spin_loop].
    unfold Delay.to_long_long.
    destruct (Z.ltb_spec (n * 1000) (2 ^ 63)); [lia|].
    destruct (Z.ltb_spec (elapsed 0%nat) (n * 1000 - 2 ^ 64)); [lia|reflexivity].
Qed.

Lemma delay_waits_until_elapsed_witness :
  Delay.delay 10 (fun i => 400 * Z.of_nat i) 1 = Some 4%nat.
Proof.
  apply (proj2 (delay_waits_until_elapsed 10 (fun i => 400 * Z.of_nat i) 1) 3%nat).
  - lia.
  - intros j Hj. lia.
  - vm_compute. discriminate.
  - lia.
Defined.

Lemma unsigned_delays_wait_until_elapsed_witness :
  Delay.delayMicroseconds 10 (fun i => 400 * Z.of_nat i) 1000 = Some 4%nat.
Proof.
  apply (proj1 (unsigned_delays_wait_until_elapsed 10 (fun i => 400 * Z.of_nat i) 1000)
           3%nat).
  - lia.
  - intros j Hj. lia.
  - vm_compute. discriminate.
  - lia.
Defined.

(** ** More on the stream *)

Section MoreStreamFacts.
Context {Sock : Type} {sockets : SITL.Socket Sock}.
Implicit Types s : Stream Sock.

Lemma array_get_memcpy_below dst off src n i :
  i < off -> array_get (memcpy dst off src n) i = array_get dst i.
Proof.
  intros Hi. unfold array_get, memcpy.
  destruct (decide (0 <= off)); [|reflexivity].
  destruct (decide (0 <= i)); [|reflexivity].
  rewrite list_lookup_inserts_lt by lia. reflexivity.
Qed.

(** A refill leaves the cursor and every byte below [inputLength] as they
    are when unread bytes remain. *)
Lemma poll_keeps_unread s :
  inputCursor s < inputLength s ->
  inputCursor (pollSITLInput s) = inputCursor s
  /\ inputLength s <= inputLength (pollSITLInput s)
  /\ forall i, i < inputLength s ->
       array_get (inputBuffer (pollSITLInput s)) i = array_get (inputBuffer s) i.
Proof.
  intros Hunread. unfold pollSITLInput.
  destruct (sitlSocket s) as [sk|]; [|repeat split; reflexivity || lia].
  destruct (SITL.isConnected sk); cbn [negb]; [|repeat split; reflexivity || lia].
  destruct (Z.leb_spec (inputLength s) (inputCursor s)) as [Hd|_]; [lia|].
  cbv zeta.
  destruct (Z.leb_spec (sizeof (inputBuffer s) - inputLength s) 0);
    [repeat split; reflexivity || lia|].
  destruct (SITL.read _ sk) as [[bytesRead tempBuffer] sk'].
  destruct (Z.ltb_spec 0 bytesRead);
    cbn [inputCursor inputLength inputBuffer]; [|repeat split; reflexivity || lia].
  split; [reflexivity|]. split; [lia|].
  intros i Hi. rewrite array_get_set_ne by lia.
  apply array_get_memcpy_below. exact Hi.
Qed.

Lemma poll_log s :
  fakeBuffer (pollSITLInput s) = fakeBuffer s
  /\ cursor (pollSITLInput s) = cursor s.
Proof.
  unfold pollSITLInput.
  destruct (sitlSocket s) as [sk|]; [|auto].
  destruct (SITL.isConnected sk); cbn [negb]; [|auto]. cbv zeta.
  destruct (_ <=? 0); [auto|].
  destruct (SITL.read _ sk) as [[bytesRead tempBuffer] sk'].
  destruct (0 <? bytesRead); auto.
Qed.

(** The pending bytes as a segment of the buffer. *)
Lemma pending_segment s :
  0 <= inputCursor s -> inputCursor s <= inputLength s ->
  pending s
  = drop (Z.to_nat (inputCursor s)) (take (Z.to_nat (inputLength s)) (inputBuffer s)).
Proof.
  intros H0 H1. unfold pending. rewrite take_drop_commute.
  do 2 f_equal. lia.
Qed.

(** A copy into the middle of an array, as three pieces. *)
Lemma memcpy_pieces dst (off : nat) src (n : nat) :
  (n <= length src)%nat -> (off + n <= length dst)%nat ->
  memcpy dst (Z.of_nat off) src (Z.of_nat n)
  = take off dst ++ take n src ++ drop (off + n) dst.
Proof.
  intros Hsrc Hdst. unfold memcpy. rewrite decide_True by lia.
  rewrite !Nat2Z.id.
  rewrite <- (take_drop off dst) at 1.
  replace off with (length (take off dst) + 0)%nat at 1
    by (rewrite length_take; lia).
  rewrite list_inserts_app_r. f_equal.
  rewrite <- (take_drop n (drop off dst)) at 1.
  rewrite list_inserts_0_r by (rewrite !length_take, length_drop; lia).
  rewrite drop_drop. reflexivity.
Qed.

End MoreStreamFacts.

(** X6. A refill that takes [bytesRead > 0] bytes from a connected socket,
    and leaves the last slot of the buffer free, appends exactly those
    bytes after the unread ones: the pending input becomes the old pending
    input followed by the bytes received, so bytes are read in the order
    they arrived. The input invariant holds afterwards, the buffer is
    terminated at [inputLength], and the stream owns the socket as the read
    left it. *)
Theorem refill_appends_received_bytes :
  forall (Sock : Type) (sockets : SITL.Socket Sock) (s : Stream Sock)
         (sk sk' : Sock) (bytesRead : Z) (tempBuffer : list byte),
    sitlSocket s = Some sk ->
    SITL.isConnected sk = true ->
    input_bounds s ->
    let il := if inputLength s <=? inputCursor s then 0 else inputLength s in
    SITL.read (Z.min tempBuffer_size (sizeof (inputBuffer s) - il)) sk
      = (bytesRead, tempBuffer, sk') ->
    0 < bytesRead -> bytesRead <= sizeof tempBuffer ->
    il + bytesRead <= sizeof (inputBuffer s) - 1 ->
    let s' := pollSITLInput s in
    pending s' = pending s ++ take (Z.to_nat bytesRead) tempBuffer
    /\ sitlSocket s' = Some sk'
    /\ input_invariant s'
    /\ array_get (inputBuffer s') (inputLength s') = x00.
Proof.
  intros Sock sockets s sk sk' bytesRead tempBuffer Hsk Hconn (H0 & H1 & H2)
         il Hread Hpos Htmp Hfit s'.
  set (ic := if inputLength s <=? inputCursor s then 0 else inputCursor s).
  assert (Hb : 0 <= ic /\ ic <= il /\ il <= sizeof (inputBuffer s)
               /\ pending s
                  = drop (Z.to_nat ic) (take (Z.to_nat il) (inputBuffer s))).
  { unfold ic, il. destruct (Z.leb_spec (inputLength s) (inputCursor s)).
    - rewrite pending_empty by lia. cbn. rewrite take_0. repeat split; lia || reflexivity.
    - repeat split; try lia. apply pending_segment; lia. }
  destruct Hb as (Hic0 & Hicl & Hil & Hpend).
  assert (Hs' : s' = {| fakeBuffer := fakeBuffer s; cursor := cursor s;
                        inputBuffer :=
                          array_set (memcpy (inputBuffer s) il tempBuffer bytesRead)
                                    (il + bytesRead) x00;
                        inputCursor := ic; inputLength := il + bytesRead;
                        sitlSocket := Some sk' |}).
  { unfold s', pollSITLInput. rewrite Hsk, Hconn. cbn [negb]. cbv zeta.
    fold il. fold ic.
    destruct (Z.leb_spec (sizeof (inputBuffer s) - il) 0); [lia|].
    replace (if tempBuffer_size <? sizeof (inputBuffer s) - il
             then tempBuffer_size else sizeof (inputBuffer s) - il)
      with (Z.min tempBuffer_size (sizeof (inputBuffer s) - il))
      by (destruct (Z.ltb_spec tempBuffer_size (sizeof (inputBuffer s) - il)); lia).
    rewrite Hread. destruct (Z.ltb_spec 0 bytesRead); [reflexivity|lia]. }
  rewrite Hs'. clearbody ic il. clear Hs' s' Hread.
  unfold sizeof in *.
  assert (Hcopy : memcpy (inputBuffer s) il tempBuffer bytesRead
                  = take (Z.to_nat il) (inputBuffer s)
                    ++ take (Z.to_nat bytesRead) tempBuffer
                    ++ drop (Z.to_nat il + Z.to_nat bytesRead) (inputBuffer s)).
  { rewrite <- (Z2Nat.id il) at 1 by lia.
    rewrite <- (Z2Nat.id bytesRead) at 1 by lia.
    apply memcpy_pieces; lia. }
  split; [|split; [reflexivity|split]].
  - rewrite pending_segment by (cbn; lia).
    cbn [inputCursor inputLength inputBuffer].
    rewrite take_array_set_above by lia.
    rewrite Hcopy, Hpend.
    replace (Z.to_nat (il + bytesRead))
      with (length (take (Z.to_nat il) (inputBuffer s)
                    ++ take (Z.to_nat bytesRead) tempBuffer))
      by (rewrite length_app, !length_take; lia).
    rewrite app_assoc, take_app_length.
    rewrite drop_app_le by (rewrite length_take; lia). reflexivity.
  - unfold input_invariant. cbn [inputCursor inputLength inputBuffer].
    fold (sizeof (array_set (memcpy (inputBuffer s) il tempBuffer bytesRead)
                            (il + bytesRead) x00)).
    rewrite sizeof_array_set, sizeof_memcpy. unfold sizeof. lia.
  - cbn [inputLength inputBuffer]. apply array_get_set_eq.
    rewrite sizeof_memcpy. unfold sizeof. lia.
Qed.

Lemma refill_appends_received_bytes_witness :
  let sockets := simulator_up in
  let s : Stream TestSocket.t :=
    simulateInput (Some [x61; x62]) (snd (connectSITL localhost 5760 (newStream 8 8))) in
  let s' := pollSITLInput s in
  pending s' = [x61; x62] ++ [x68; x65; x6c; x6c; x6f]
  /\ sitlSocket s'
     = Some {| TestSocket.connected := true; TestSocket.accepting := true;
               TestSocket.incoming := []; TestSocket.outgoing := [] |}
  /\ input_invariant s'
  /\ array_get (inputBuffer s') (inputLength s') = x00.
Proof.
  apply (refill_appends_received_bytes TestSocket.t simulator_up
           (simulateInput (Some [x61; x62])
              (snd (connectSITL (sockets := simulator_up) localhost 5760 (newStream 8 8))))
           {| TestSocket.connected := true; TestSocket.accepting := true;
              TestSocket.incoming := [x68; x65; x6c; x6c; x6f];
              TestSocket.outgoing := [] |}
           {| TestSocket.connected := true; TestSocket.accepting := true;
              TestSocket.incoming := []; TestSocket.outgoing := [] |}
           5 [x68; x65; x6c; x6c; x6f]).
  - reflexivity.
  - reflexivity.
  - vm_compute. repeat split; discriminate.
  - reflexivity.
  - lia.
  - vm_compute. discriminate.
  - vm_compute. discriminate.
Defined.

(** X7. While unread bytes remain, and as long as the refill keeps the
    input invariant, [available()] returns [true] and [peek()] and [read()]
    both return the oldest unread byte, whatever a connected socket delivers
    meanwhile; [read()] moves the cursor one byte on, [peek()] leaves it. *)
Theorem unread_byte_is_observed :
  forall (Sock : Type) (sockets : SITL.Socket Sock) (s : Stream Sock),
    inputCursor s < inputLength s ->
    input_invariant s ->
    input_invariant (pollSITLInput s) ->
    let oldest := byte_to_Z (array_get (inputBuffer s) (inputCursor s)) in
    fst (available s) = true
    /\ fst (peek s) = oldest
    /\ fst (read s) = oldest
    /\ 0 <= oldest <= 255
    /\ inputCursor (snd (peek s)) = inputCursor s
    /\ inputCursor (snd (read s)) = inputCursor s + 1.
Proof.
  intros Sock sockets s Hunread _ _ oldest.
  destruct (poll_keeps_unread s Hunread) as (Hic & Hil & Hbytes).
  unfold available, peek, read. cbn [fst snd].
  destruct (Z.leb_spec (inputLength (pollSITLInput s)) (inputCursor (pollSITLInput s)));
    [lia|].
  cbn [fst snd inputCursor]. rewrite Hic, (Hbytes _ Hunread).
  repeat split; try reflexivity; try apply byte_to_Z_range.
  apply Z.ltb_lt. lia.
Qed.

Lemma unread_byte_is_observed_witness :
  let sockets := simulator_up in
  let s : Stream TestSocket.t :=
    simulateInput (Some [x61; x62]) (snd (connectSITL localhost 5760 (newStream 8 8))) in
  fst (available s) = true
  /\ fst (peek s) = 97
  /\ fst (read s) = 97
  /\ 0 <= 97 <= 255
  /\ inputCursor (snd (peek s)) = inputCursor s
  /\ inputCursor (snd (read s)) = inputCursor s + 1.
Proof.
  apply (unread_byte_is_observed TestSocket.t simulator_up
           (simulateInput (Some [x61; x62])
              (snd (connectSITL (sockets := simulator_up) localhost 5760 (newStream 8 8))))).
  - vm_compute. reflexivity.
  - vm_compute. repeat split; discriminate.
  - vm_compute. repeat split; discriminate.
Defined.



(** X9. On a stream without a connected socket, [readBytes(buffer, length)]
    copies the first [length] pending bytes (all of them when fewer are
    pending) to the front of [buffer], returns their number and moves the
    input cursor past them; the rest of [buffer] is unchanged. *)
Theorem readBytes_takes_pending_prefix :
  forall (Sock : Type) (sockets : SITL.Socket Sock)
         (buffer : list byte) (length' : Z) (s : Stream Sock),
    isSITLConnected s = false ->
    input_bounds s ->
    length' <= sizeof buffer ->
    let taken := take (Z.to_nat length') (pending s) in
    readBytes buffer length' s
    = (Z.of_nat (length taken),
       taken ++ drop (length taken) buffer,
       advance (Z.of_nat (length taken)) s).
Proof.
  intros Sock sockets buffer len s Hc (H0 & H1 & H2) Hbuf taken.
  unfold readBytes.
  rewrite <- (readBytesUntil_loop_no_match (-1)) by (left; lia).
  rewrite (readBytesUntil_loop_on_pending (-1) (Z.to_nat len) 0) by assumption.
  rewrite bytes_until_no_match by (left; lia). cbn [fst snd Nat.add]. fold taken.
  f_equal. f_equal.
  rewrite <- (take_drop (length taken) buffer) at 1.
  apply list_inserts_0_r. rewrite length_take.
  assert (length taken <= Z.to_nat len)%nat by (unfold taken; rewrite length_take; lia).
  unfold sizeof in Hbuf. lia.
Qed.

Lemma readBytes_takes_pending_prefix_witness :
  let sockets := port_closed in
  let s : Stream TestSocket.t :=
    simulateInput (Some [x61; x62; x63; x64; x65]) (newStream 8 8) in
  readBytes (replicate 4 x2e) 3 s
  = (3, [x61; x62; x63; x2e], advance 3 s).
Proof.
  apply (readBytes_takes_pending_prefix TestSocket.t port_closed
           (replicate 4 x2e) 3
           (simulateInput
              (Some [x61; x62; x63; x64; x65]) (newStream 8 8))).
  - reflexivity.
  - vm_compute. repeat split; discriminate.
  - vm_compute. discriminate.
Defined.

Section InjectionFacts.
Context {Sock : Type} {sockets : SITL.Socket Sock}.
Implicit Types s : Stream Sock.

(** What an injection leaves pending, cut or not. *)
Lemma simulateInput_pending_cut m s :
  1 <= sizeof (inputBuffer s) ->
  pending (simulateInput (Some m) s)
  = take (Z.to_nat (sizeof (inputBuffer s) - 1)) (c_str m).
Proof.
  intros Hsize.
  destruct (Z.le_gt_cases (sizeof (inputBuffer s)) (strlen m)) as [Hlong|Hfits].
  - unfold pending, simulateInput. cbn [inputCursor inputLength inputBuffer].
    destruct (Z.leb_spec (sizeof (inputBuffer s)) (strlen m)); [|lia].
    rewrite Z.sub_0_r. change (Z.to_nat 0) with 0%nat. rewrite drop_0.
    set (n := Z.to_nat (sizeof (inputBuffer s) - 1)).
    replace (sizeof (inputBuffer s) - 1) with (Z.of_nat n) by (unfold n; lia).
    unfold strlen, sizeof in *. pose proof (c_str_length m) as Hm.
    rewrite take_array_set_above by lia.
    rewrite take_memcpy_front by lia.
    rewrite (c_str_prefix m), take_take. f_equal. lia.
  - rewrite simulateInput_pending by lia.
    symmetry. apply take_ge. unfold strlen in Hfits. lia.
Qed.

End InjectionFacts.

(** X10. From any state of a stream without a connected socket,
    [simulateInput(data)] followed by repeated [read()] returns the first
    [capacity - 1] bytes of the string (the whole string when it is shorter)
    and then [-1] for ever: what was unread before is discarded, and what
    does not fit before the terminator slot is dropped. The input invariant
    holds after the injection whatever the cursors were before. *)
Theorem simulateInput_keeps_what_fits :
  forall (Sock : Type) (sockets : SITL.Socket Sock)
         (s : Stream Sock) (m : list byte) (n : nat),
    isSITLConnected s = false ->
    1 <= sizeof (inputBuffer s) ->
    let kept := take (Z.to_nat (sizeof (inputBuffer s) - 1)) (c_str m) in
    fst (read_n (length kept + n) (simulateInput (Some m) s))
    = map byte_to_Z kept ++ replicate n (-1)
    /\ pending (simulateInput (Some m) s) = kept
    /\ input_invariant (simulateInput (Some m) s).
Proof.
  intros Sock sockets s m n Hc Hsize kept.
  pose proof (simulateInput_pending_cut m s Hsize) as Hpend. fold kept in Hpend.
  assert (Hinv : input_invariant (simulateInput (Some m) s)).
  { unfold input_invariant, simulateInput. cbn [inputCursor inputLength inputBuffer].
    rewrite sizeof_array_set, sizeof_memcpy. unfold strlen.
    destruct (Z.leb_spec (sizeof (inputBuffer s)) (Z.of_nat (length (c_str m)))); lia. }
  split; [|split; [exact Hpend|exact Hinv]].
  destruct Hinv as (H0 & H1 & H2).
  rewrite read_n_drains.
  - cbn [fst]. rewrite Hpend. reflexivity.
  - rewrite simulateInput_connection. exact Hc.
  - exact H0.
  - lia.
  - rewrite <- Hpend. unfold pending. rewrite length_take, length_drop.
    unfold sizeof in H2. lia.
Qed.

Lemma simulateInput_keeps_what_fits_witness :
  let sockets := port_closed in
  let s : Stream TestSocket.t := simulateInput (Some [x7a; x7a]) (newStream 4 4) in
  let kept := take (Z.to_nat (sizeof (inputBuffer s) - 1))
                   (c_str [x61; x62; x63; x64; x65]) in
  fst (read_n (length kept + 2) (simulateInput (Some [x61; x62; x63; x64; x65]) s))
  = map byte_to_Z kept ++ replicate 2 (-1)
  /\ pending (simulateInput (Some [x61; x62; x63; x64; x65]) s) = kept
  /\ input_invariant (simulateInput (Some [x61; x62; x63; x64; x65]) s).
Proof.
  apply (simulateInput_keeps_what_fits TestSocket.t port_closed
           (simulateInput (Some [x7a; x7a]) (newStream 4 4))
           [x61; x62; x63; x64; x65] 2).
  - reflexivity.
  - vm_compute. discriminate.
Defined.

(** X11. [disconnectSITL()] (and [end()], which calls it) releases the
    socket and touches nothing else: the stream is then not connected, the
    log is as before, and the bytes that were pending are still read in
    order, followed by [-1] for ever. A second call changes nothing. *)
Theorem disconnect_keeps_buffered_input :
  forall (Sock : Type) (sockets : SITL.Socket Sock) (s : Stream Sock) (n : nat),
    input_bounds s ->
    let s' := disconnectSITL s in
    sitlSocket s' = None
    /\ isSITLConnected s' = false
    /\ Stream_end s = s'
    /\ disconnectSITL s' = s'
    /\ fakeBuffer s' = fakeBuffer s /\ cursor s' = cursor s
    /\ pending s' = pending s
    /\ fst (read_n (length (pending s) + n) s')
       = map byte_to_Z (pending s) ++ replicate n (-1).
Proof.
  intros Sock sockets s n (H0 & H1 & H2) s'.
  assert (Hfields : sitlSocket s' = None
                    /\ fakeBuffer s' = fakeBuffer s /\ cursor s' = cursor s
                    /\ inputBuffer s' = inputBuffer s
                    /\ inputCursor s' = inputCursor s
                    /\ inputLength s' = inputLength s).
  { unfold s', disconnectSITL.
    destruct (sitlSocket s) eqn:Hs; cbn; rewrite ?Hs; auto 10. }
  destruct Hfields as (Hso & Hfb & Hcu & Hib & Hic & Hil).
  assert (Hpend : pending s' = pending s)
    by (unfold pending; rewrite Hib, Hic, Hil; reflexivity).
  assert (Hnc : isSITLConnected s' = false)
    by (unfold isSITLConnected; rewrite Hso; reflexivity).
  repeat split; try assumption; try reflexivity.
  - unfold disconnectSITL at 1. rewrite Hso. reflexivity.
  - rewrite read_n_drains.
    + cbn [fst]. rewrite Hpend. reflexivity.
    + exact Hnc.
    + lia.
    + rewrite Hil, Hib. exact H2.
    + unfold pending. rewrite length_take, length_drop, Hil, Hic.
      unfold sizeof in H2. lia.
Qed.

Lemma disconnect_keeps_buffered_input_witness :
  let sockets := simulator_up in
  let s : Stream TestSocket.t :=
    snd (available (snd (connectSITL localhost 5760 (newStream 8 8)))) in
  let s' := disconnectSITL s in
  sitlSocket s' = None
  /\ isSITLConnected s' = false
  /\ Stream_end s = s'
  /\ disconnectSITL s' = s'
  /\ fakeBuffer s' = fakeBuffer s /\ cursor s' = cursor s
  /\ pending s' = pending s
  /\ fst (read_n (length (pending s) + 1) s')
     = map byte_to_Z (pending s) ++ replicate 1 (-1).
Proof.
  apply (disconnect_keeps_buffered_input TestSocket.t simulator_up
           (snd (available (sockets := simulator_up)
                   (snd (connectSITL (sockets := simulator_up) localhost 5760
                           (newStream 8 8))))) 1).
  vm_compute. repeat split; discriminate.
Defined.

(** X12. From any log state in which the cursor is before the last slot
    and the log is terminated, a run of single-byte writes appends the
    bytes for which there is room before the last slot, in order, and drops
    the others; every call returns 1, the log stays terminated, its size
    does not change and the input side is not touched. *)
Theorem writes_append_while_room :
  forall (Sock : Type) (sockets : SITL.Socket Sock)
         (bs : list byte) (s : Stream Sock),
    log_invariant s ->
    let s' := snd (write_all bs s) in
    let room := sizeof (fakeBuffer s) - 1 - cursor s in
    logged s' = logged s ++ take (Z.to_nat room) bs
    /\ cursor s' = cursor s + Z.min (Z.of_nat (length bs)) room
    /\ fst (write_all bs s) = replicate (length bs) 1
    /\ log_invariant s'
    /\ sizeof (fakeBuffer s') = sizeof (fakeBuffer s)
    /\ inputBuffer s' = inputBuffer s
    /\ inputCursor s' = inputCursor s /\ inputLength s' = inputLength s.
Proof.
  intros Sock sockets bs s (H0 & H1 & H2) s' room.
  destruct (write_all_log bs s (conj H0 H1) H2) as (Hr & Hc & Hl & Hs & Ht).
  fold s' in Hc, Hl, Hs, Ht.
  assert (Hin : inputBuffer s' = inputBuffer s
                /\ inputCursor s' = inputCursor s /\ inputLength s' = inputLength s).
  { unfold s'. clear. revert s. induction bs as [|b bs IH]; intros s; [auto|].
    rewrite write_all_cons. cbn [snd].
    destruct (IH (snd (write b s))) as (-> & -> & ->). apply write_frame. }
  destruct Hin as (Hib & Hic & Hil).
  split; [exact Hl|]. split; [lia|]. split; [exact Hr|].
  split; [unfold log_invariant; rewrite Hs; repeat split; [lia|lia|exact Ht]|].
  repeat split; assumption.
Qed.

Lemma writes_append_while_room_witness :
  let sockets := port_closed in
  let s : Stream TestSocket.t := snd (write_all [x61; x62] (newStream 6 4)) in
  let s' := snd (write_all [x63; x64; x65; x66; x67] s) in
  let room := sizeof (fakeBuffer s) - 1 - cursor s in
  logged s' = logged s ++ take (Z.to_nat room) [x63; x64; x65; x66; x67]
  /\ cursor s' = cursor s + Z.min (Z.of_nat (length [x63; x64; x65; x66; x67])) room
  /\ fst (write_all [x63; x64; x65; x66; x67] s) = replicate 5 1
  /\ log_invariant s'
  /\ sizeof (fakeBuffer s') = sizeof (fakeBuffer s)
  /\ inputBuffer s' = inputBuffer s
  /\ inputCursor s' = inputCursor s /\ inputLength s' = inputLength s.
Proof.
  apply (writes_append_while_room TestSocket.t port_closed
           [x63; x64; x65; x66; x67]
           (snd (write_all (sockets := port_closed) [x61; x62] (newStream 6 4)))).
  vm_compute. repeat split; try reflexivity; discriminate.
Defined.

Section SequenceFacts.
Context {Sock : Type} {sockets : SITL.Socket Sock}.
Implicit Types s : Stream Sock.

Lemma run_cons_op o ops s : run (o :: ops) s = run ops (step o s).
Proof. reflexivity. Qed.

Lemma read_log s :
  fakeBuffer (snd (read s)) = fakeBuffer s /\ cursor (snd (read s)) = cursor s.
Proof.
  unfold read. destruct (_ <=? _); cbn [snd fakeBuffer cursor]; apply poll_log.
Qed.

(** The calls of the input side other than [clearBuffer] leave the log. *)
Lemma after_log c s :
  c <> ClearBuffer ->
  fakeBuffer (after c s) = fakeBuffer s /\ cursor (after c s) = cursor s.
Proof.
  intros Hc.
  set (P := fun s' : Stream Sock =>
              fakeBuffer s' = fakeBuffer s /\ cursor s' = cursor s).
  assert (Hread : forall s', P s' -> P (snd (read s'))).
  { intros s' (Hf & Hk). unfold P. destruct (read_log s') as (-> & ->).
    split; assumption. }
  assert (Hp : P s) by (split; reflexivity).
  destruct c as [| | |buffer len|t buffer len|data|]; cbn [after].
  - apply poll_log.
  - apply read_log.
  - unfold peek. destruct (_ <=? _); apply poll_log.
  - unfold readBytes. apply (readBytes_loop_keeps P Hread). exact Hp.
  - unfold readBytesUntil. destruct (len <? 1); [exact Hp|].
    apply (readBytesUntil_loop_keeps P t Hread). exact Hp.
  - destruct data; split; reflexivity.
  - contradiction.
Qed.

Lemma connectSITL_frame host port s :
  fakeBuffer (snd (connectSITL host port s)) = fakeBuffer s
  /\ cursor (snd (connectSITL host port s)) = cursor s
  /\ inputBuffer (snd (connectSITL host port s)) = inputBuffer s
  /\ inputCursor (snd (connectSITL host port s)) = inputCursor s
  /\ inputLength (snd (connectSITL host port s)) = inputLength s.
Proof.
  unfold connectSITL. destruct (SITL.connect host port _) as [ok sk2].
  cbn. auto.
Qed.

Lemma disconnectSITL_frame s :
  fakeBuffer (disconnectSITL s) = fakeBuffer s
  /\ cursor (disconnectSITL s) = cursor s
  /\ inputBuffer (disconnectSITL s) = inputBuffer s
  /\ inputCursor (disconnectSITL s) = inputCursor s
  /\ inputLength (disconnectSITL s) = inputLength s.
Proof.
  unfold disconnectSITL. destruct (sitlSocket s); cbn; auto.
Qed.

Lemma write_log_invariant b s :
  log_invariant s -> log_invariant (snd (write b s)).
Proof.
  intros (H0 & H1 & H2). unfold log_invariant.
  rewrite sizeof_write. split; [|split].
  - destruct (Z.lt_ge_cases (cursor s) (sizeof (fakeBuffer s) - 1)) as [Hr|Hf].
    + destruct (write_appends b s Hr) as [-> _]. lia.
    + destruct (write_drops b s Hf) as [-> _]. lia.
  - destruct (Z.lt_ge_cases (cursor s) (sizeof (fakeBuffer s) - 1)) as [Hr|Hf].
    + destruct (write_appends b s Hr) as [-> _]. lia.
    + destruct (write_drops b s Hf) as [-> _]. lia.
  - apply write_terminated; assumption.
Qed.

(** One operation that does not refill from a socket keeps the sizes and
    both invariants. *)
Lemma step_keeps_invariants (F N : Z) o s :
  (polls o = true -> isSITLConnected s = false) ->
  sizeof (fakeBuffer s) = F /\ sizeof (inputBuffer s) = N
  /\ input_invariant s /\ log_invariant s ->
  sizeof (fakeBuffer (step o s)) = F /\ sizeof (inputBuffer (step o s)) = N
  /\ input_invariant (step o s) /\ log_invariant (step o s).
Proof.
  intros Hquiet (HF & HN & Hin & Hlog).
  assert (HN1 : 1 <= N) by (unfold input_invariant in Hin; lia).
  assert (HF1 : 1 <= F) by (unfold log_invariant in Hlog; lia).
  destruct o as [c|b|host port| |]; cbn [step].
  - cbn [after]. destruct (polls (OpCall c)) eqn:Hpolls.
    + assert (Hnc : c <> ClearBuffer) by (intros ->; discriminate).
      destruct (after_log c s Hnc) as (Hfb & Hcu).
      destruct (invariant_kept_unconnected N c s HN1
                  (conj HN (conj (Hquiet eq_refl) Hin))) as (Hs & _ & Hi).
      rewrite Hfb. split; [exact HF|]. split; [exact Hs|]. split; [exact Hi|].
      unfold log_invariant. rewrite Hfb, Hcu. exact Hlog.
    + destruct c as [| | |buffer len|t buffer len|data|]; try discriminate.
      * cbn [after]. rewrite sizeof_simulateInput.
        destruct (after_log (SimulateInput data) s ltac:(discriminate)) as (Hfb & Hcu).
        cbn [after] in Hfb, Hcu. rewrite Hfb.
        split; [exact HF|]. split; [exact HN|].
        split; [apply simulateInput_invariant; [lia|exact Hin]|].
        unfold log_invariant. rewrite Hfb, Hcu. exact Hlog.
      * cbn [after]. unfold log_invariant, clearBuffer.
        cbn [fakeBuffer cursor inputBuffer].
        rewrite !sizeof_array_set.
        split; [exact HF|]. split; [exact HN|].
        split; [apply clearBuffer_invariant; lia|].
        split; [lia|]. split; [lia|]. apply array_get_set_eq. lia.
  - destruct (write_frame b s) as (Hib & Hic & Hil).
    rewrite sizeof_write, Hib. split; [exact HF|]. split; [exact HN|].
    split; [|apply write_log_invariant; exact Hlog].
    unfold input_invariant. rewrite Hib, Hic, Hil. exact Hin.
  - destruct (connectSITL_frame host port s) as (Hfb & Hcu & Hib & Hic & Hil).
    unfold input_invariant, log_invariant. rewrite Hfb, Hcu, Hib, Hic, Hil.
    repeat split; assumption || apply Hin || apply Hlog.
  - destruct (disconnectSITL_frame s) as (Hfb & Hcu & Hib & Hic & Hil).
    unfold input_invariant, log_invariant. rewrite Hfb, Hcu, Hib, Hic, Hil.
    repeat split; assumption || apply Hin || apply Hlog.
  - unfold Stream_end.
    destruct (disconnectSITL_frame s) as (Hfb & Hcu & Hib & Hic & Hil).
    unfold input_invariant, log_invariant. rewrite Hfb, Hcu, Hib, Hic, Hil.
    repeat split; assumption || apply Hin || apply Hlog.
Qed.

End SequenceFacts.

(** X13. Along any sequence of public operations during which no refill
    takes bytes from a connected socket (every polling operation finds the
    stream unconnected; writes, injections, clears, connects and
    disconnects may come in any order), the two buffers keep their sizes,
    the input side keeps [0 <= inputCursor <= inputLength <= capacity - 1],
    and the log keeps its cursor before the last slot with the terminator
    under it. *)
Theorem invariants_kept_without_refill :
  forall (Sock : Type) (sockets : SITL.Socket Sock) (ops : list op) (s : Stream Sock),
    input_invariant s ->
    log_invariant s ->
    no_refill ops s ->
    sizeof (fakeBuffer (run ops s)) = sizeof (fakeBuffer s)
    /\ sizeof (inputBuffer (run ops s)) = sizeof (inputBuffer s)
    /\ input_invariant (run ops s)
    /\ log_invariant (run ops s).
Proof.
  intros Sock sockets ops.
  induction ops as [|o ops IH]; intros s Hin Hlog Hquiet.
  - repeat split; assumption || apply Hin || apply Hlog.
  - destruct Hquiet as (Ho & Hrest). rewrite run_cons_op.
    destruct (step_keeps_invariants (sizeof (fakeBuffer s)) (sizeof (inputBuffer s))
                o s Ho) as (HF & HN & Hin' & Hlog').
    { repeat split; assumption || apply Hin || apply Hlog. }
    destruct (IH (step o s) Hin' Hlog' Hrest) as (H1 & H2 & H3 & H4).
    rewrite H1, H2, HF, HN. repeat split; assumption || apply H3 || apply H4.
Qed.

Lemma invariants_kept_without_refill_witness :
  let sockets := simulator_up in
  let s : Stream TestSocket.t := newStream 4 4 in
  let ops := [OpCall (SimulateInput (Some [x61; x62; x63; x64; x65]));
              OpCall Read; OpWrite x41; OpConnect localhost 5760;
              OpWrite x42; OpWrite x43; OpWrite x44; OpDisconnect;
              OpCall (ReadBytes (replicate 4 x00) 4); OpCall Available;
              OpCall ClearBuffer] in
  sizeof (fakeBuffer (run ops s)) = sizeof (fakeBuffer s)
  /\ sizeof (inputBuffer (run ops s)) = sizeof (inputBuffer s)
  /\ input_invariant (run ops s)
  /\ log_invariant (run ops s).
Proof.
  apply (invariants_kept_without_refill TestSocket.t simulator_up).
  - vm_compute. repeat split; discriminate.
  - vm_compute. repeat split; try reflexivity; discriminate.
  - vm_compute. repeat split; intros; try reflexivity; discriminate.
Defined.

(** X14. [write], [connectSITL], [disconnectSITL] and [end] never touch
    the input side: after any sequence of them the input buffer, the
    cursor, the length, and so the pending bytes, are what they were. *)
Theorem input_side_left_by_other_operations :
  forall (Sock : Type) (sockets : SITL.Socket Sock) (ops : list op) (s : Stream Sock),
    forallb leaves_input ops = true ->
    inputBuffer (run ops s) = inputBuffer s
    /\ inputCursor (run ops s) = inputCursor s
    /\ inputLength (run ops s) = inputLength s
    /\ pending (run ops s) = pending s.
Proof.
  intros Sock sockets ops.
  induction ops as [|o ops IH]; intros s Hops; [repeat split; reflexivity|].
  cbn [forallb] in Hops. apply andb_prop in Hops as [Ho Hops].
  rewrite run_cons_op.
  destruct (IH (step o s) Hops) as (Hib & Hic & Hil & Hp).
  assert (Hstep : inputBuffer (step o s) = inputBuffer s
                  /\ inputCursor (step o s) = inputCursor s
                  /\ inputLength (step o s) = inputLength s).
  { destruct o as [c|b|host port| |]; cbn [step]; [discriminate| | | |].
    - apply write_frame.
    - destruct (connectSITL_frame host port s) as (_ & _ & H1 & H2 & H3). auto.
    - destruct (disconnectSITL_frame s) as (_ & _ & H1 & H2 & H3). auto.
    - destruct (disconnectSITL_frame s) as (_ & _ & H1 & H2 & H3). auto. }
  destruct Hstep as (Sib & Sic & Sil).
  rewrite Hib, Hic, Hil, Hp. unfold pending. rewrite Sib, Sic, Sil.
  repeat split; reflexivity.
Qed.

Lemma input_side_left_by_other_operations_witness :
  let sockets := simulator_up in
  let s : Stream TestSocket.t := simulateInput (Some [x61; x62]) (newStream 4 4) in
  let ops := [OpWrite x41; OpConnect localhost 5760; OpWrite x42; OpDisconnect;
              OpConnect localhost 5760; OpEnd] in
  inputBuffer (run ops s) = inputBuffer s
  /\ inputCursor (run ops s) = inputCursor s
  /\ inputLength (run ops s) = inputLength s
  /\ pending (run ops s) = pending s.
Proof.
  apply (input_side_left_by_other_operations TestSocket.t simulator_up).
  reflexivity.
Defined.

(** X15. On a stream that owns a connected socket which stays connected
    when written to, a run of single-byte writes passes every byte to the
    socket, one [write(&b, 1)] per byte and in order, whether or not the
    log had room for it: what the log drops is still sent. *)
Theorem writes_are_forwarded_to_socket :
  forall (Sock : Type) (sockets : SITL.Socket Sock)
         (bs : list byte) (s : Stream Sock) (sk : Sock),
    (forall data k, SITL.isConnected k = true ->
                    SITL.isConnected (snd (SITL.write data k)) = true) ->
    sitlSocket s = Some sk ->
    SITL.isConnected sk = true ->
    sitlSocket (snd (write_all bs s))
    = Some (foldl (fun k b => snd (SITL.write [b] k)) sk bs).
Proof.
  intros Sock sockets bs s sk Hstays. revert s sk.
  induction bs as [|b bs IH]; intros s sk Hsk Hconn; [exact Hsk|].
  rewrite write_all_cons. cbn [snd foldl].
  apply IH; [|apply Hstays; exact Hconn].
  unfold write.
  destruct (cursor s <? sizeof (fakeBuffer s) - 1);
    cbn [snd sitlSocket]; rewrite Hsk, Hconn; reflexivity.
Qed.

Lemma writes_are_forwarded_to_socket_witness :
  let sockets := simulator_up in
  let s : Stream TestSocket.t := snd (connectSITL localhost 5760 (newStream 3 4)) in
  sitlSocket (snd (write_all [x61; x62; x63; x64] s))
  = Some (foldl (fun k b => snd (SITL.write [b] k))
                {| TestSocket.connected := true; TestSocket.accepting := true;
                   TestSocket.incoming := [x68; x65; x6c; x6c; x6f];
                   TestSocket.outgoing := [] |}
                [x61; x62; x63; x64]).
Proof.
  apply (writes_are_forwarded_to_socket TestSocket.t simulator_up
           [x61; x62; x63; x64]
           (snd (connectSITL (sockets := simulator_up) localhost 5760 (newStream 3 4)))).
  - intros data k Hk. cbn in *. unfold TestSocket.write.
    cbn in Hk. unfold TestSocket.isConnected in Hk. rewrite Hk. reflexivity.
  - reflexivity.
  - reflexivity.
Defined.

(** ** The storage mock *)

(** X16. A [MockFile] that is not open does nothing: every operation
    returns its failure value ([0], [false] or [-1]) without calling the C
    library, so the world is left as it was. [close()] leaves the file in
    that state whatever [fclose] returned, so every operation after a
    [close()], a second [close()] included, is such a no-op; and a file
    whose [fopen] failed, as [openRead] and [openWrite] can return it, is in
    that state from the start. *)
Theorem closed_file_is_inert :
  forall (File World : Type) (libc : Stdio.Lib File World)
         (mf : MockFile.t File) (w : World),
    let inert (f : MockFile.t File) :=
      MockFile.isOpen f = false
      /\ forall (v : World) (b : byte) (data : list byte) (n pos : Z),
           MockFile.write b f v = (0, v)
           /\ MockFile.write_buffer data f v = (0, v)
           /\ MockFile.flush f v = (false, v)
           /\ MockFile.read f v = (-1, v)
           /\ MockFile.readBytes n f v = (0, [], v)
           /\ MockFile.available f v = (0, v)
           /\ MockFile.seek pos f v = (false, v)
           /\ MockFile.position f v = (0, v)
           /\ MockFile.size f v = (0, v)
           /\ MockFile.close f v = (false, f, v)
           /\ MockFile.destroy f v = v in
    (MockFile.isOpen mf = false -> inert mf)
    /\ inert (snd (fst (MockFile.close mf w)))
    /\ (forall filename mode,
          fst (Stdio.fopen filename mode w) = None ->
          inert (fst (MockFile.create filename mode w)))
    /\ (forall filename append,
          fst (MockStorage.openRead filename w)
          = fst (MockFile.create filename MockStorage.mode_rb w)
          /\ fst (MockStorage.openWrite filename append w)
             = fst (MockFile.create filename
                      (if append then MockStorage.mode_ab else MockStorage.mode_wb) w)).
Proof.
  intros File World libc mf w inert.
  assert (Hnone : forall f : MockFile.t File, MockFile._file f = None -> inert f).
  { intros [f] Hf. cbn in Hf. subst f. split; [reflexivity|].
    intros v b data n pos. repeat split. }
  split; [|split; [|split]].
  - intros Hclosed. apply Hnone.
    destruct mf as [[f|]]; [discriminate|reflexivity].
  - apply Hnone. unfold MockFile.close.
    destruct (MockFile._file mf) as [f|] eqn:Hf; [|exact Hf].
    destruct (Stdio.fclose f w) as [r w1]. reflexivity.
  - intros filename mode Hfail. apply Hnone. unfold MockFile.create.
    destruct (Stdio.fopen filename mode w) as [f w1]. cbn in *. exact Hfail.
  - intros filename append. split; reflexivity.
Qed.

(** ** Fake sensors *)

Section BarometerFacts.
Context {D : Type} (calcAltitude pressure_at temperature_at : D -> D).
Import FakeBarometer.

Lemma update_direct (b : t D) :
  fakeAltSet b = true -> update calcAltitude b = (0, snd (read b)).
Proof.
  intros Hset. unfold update. cbn [read fst snd Z.eqb negb fakeAltSet].
  rewrite Hset. reflexivity.
Qed.

(** With the altitude set directly, updating once or many times is
    reading once. *)
Lemma updates_direct (n : nat) : forall b : t D,
  fakeAltSet b = true -> updates calcAltitude (S n) b = snd (read b).
Proof.
  induction n as [|n IH]; intros b Hset.
  - cbn [updates]. rewrite update_direct by exact Hset. reflexivity.
  - change (updates calcAltitude (S (S n)) b)
      with (updates calcAltitude (S n) (snd (update calcAltitude b))).
    rewrite update_direct by exact Hset. cbn [snd].
    rewrite IH by exact Hset. reflexivity.
Qed.

End BarometerFacts.

(** X17. After [setAltitude(a)], any number of [update()] calls leaves
    [altitudeASL = a]: the altitude is not recomputed from the pressure, and
    the pressure and temperature read are the ones [setAltitude] derived
    from [a]. After [set(p, t)], even when an altitude had been set before,
    the next [update()] returns 0 and recomputes [altitudeASL] as
    [calcAltitude(p)]. *)
Theorem barometer_altitude_source :
  forall (D : Type) (calcAltitude pressure_at temperature_at : D -> D)
         (b : FakeBarometer.t D) (a p t : D) (n : nat),
    let direct :=
      FakeBarometer.updates calcAltitude (S n)
        (FakeBarometer.setAltitude pressure_at temperature_at a b) in
    let measured :=
      FakeBarometer.update calcAltitude
        (FakeBarometer.set p t
           (FakeBarometer.setAltitude pressure_at temperature_at a b)) in
    FakeBarometer.altitudeASL direct = a
    /\ FakeBarometer.pressure direct = pressure_at a
    /\ FakeBarometer.temp direct = temperature_at a
    /\ fst measured = 0
    /\ FakeBarometer.altitudeASL (snd measured) = calcAltitude p
    /\ FakeBarometer.pressure (snd measured) = p
    /\ FakeBarometer.temp (snd measured) = t.
Proof.
  intros D calcAltitude pressure_at temperature_at b a p t n direct measured.
  unfold direct. rewrite updates_direct by reflexivity.
  repeat split; reflexivity.
Qed.

Section AccelFacts.
Context {V : Type}.
Import FakeAccel.

Lemma run_keeps_reading (ks : list call) : forall (a : t V),
  acc a = _reading a ->
  _reading (run ks a) = _reading a /\ acc (run ks a) = _reading a.
Proof.
  induction ks as [|k ks IH]; intros a Ha; [auto|].
  change (run (k :: ks) a) with (run ks (step k a)).
  assert (Hstep : _reading (step k a) = _reading a
                  /\ acc (step k a) = _reading a).
  { destruct k; cbn [step]; [unfold init|unfold read|unfold reset].
    - destruct (_shouldFailInit a); cbn; auto.
    - cbn. auto.
    - cbn. auto. }
  destruct Hstep as (Hr & Hacc).
  destruct (IH (step k a)) as (H1 & H2); [congruence|].
  split; congruence.
Qed.

End AccelFacts.

(** X18. After [set(v)] on a [FakeAccel], whatever [init()], [read()] and
    [reset()] calls follow, in any order and whether or not [init()] fails,
    the acceleration the sensor holds is [v]. An [init()] that is set to
    fail returns [-1] and changes nothing; a [read()] returns 0 and makes
    the health flag equal to what [isHealthy()] reports. *)
Theorem accel_holds_the_set_reading :
  forall (V : Type) (v : V) (calls : list FakeAccel.call) (a : FakeAccel.t V),
    FakeAccel.acc (FakeAccel.run calls (FakeAccel.set v a)) = v
    /\ (FakeAccel._shouldFailInit a = true -> FakeAccel.init a = (-1, a))
    /\ fst (FakeAccel.read a) = 0
    /\ FakeAccel.healthy (snd (FakeAccel.read a)) = FakeAccel.isHealthy a.
Proof.
  intros V v calls a. split; [|split; [|split; reflexivity]].
  - destruct (run_keeps_reading calls (FakeAccel.set v a) eq_refl) as (_ & H).
    exact H.
  - intros Hfail. unfold FakeAccel.init. rewrite Hfail. reflexivity.
Qed.
